(** * Bike-manual RAG pipeline: ingestion and retrieval, embedded in Rocq

    The development follows the Python modules of the repository:
    [ingest_manuals.py] (fingerprinting, cleaning, chunking, registry,
    ingestion loop), [rag_retrieval.py] (lazy initialisation and the
    answering operation) and the chat handler of [server.py].  Python
    [str] values are sequences of code points, exceptions are values of an
    error type, and the mutable objects (registry, vector store, module
    globals, log) are threaded explicitly.  What lies outside the
    repository (the files of the scan, the PDF loader, the vector index,
    the LLM client, the console) is a parameter that returns or raises. *)

From Stdlib Require Import ZArith NArith List Strings.String Strings.Ascii Strings.Byte Lia.
From Stdlib Require Import DecimalString.
From stdpp Require Import gmap list.
From Equations Require Import Equations.

Local Open Scope Z_scope.

(** ** Python strings *)

Module Text.

(** A [str] is a sequence of Unicode code points. *)
Abbreviation char := N (only parsing).
Abbreviation text := (list N) (only parsing).

Definition NL : char := 10%N.
Definition SPACE : char := 32%N.
Definition NBSP : char := 160%N.

(** An ASCII literal of the source, as a [str]. *)
Definition lit (s : string) : text :=
  map N_of_ascii (list_ascii_of_string s).

(** [len(s)] as a Python integer. *)
Definition len {A} (l : list A) : Z := Z.of_nat (length l).

(** [str(n)] of a Python integer: its decimal digits, with a minus sign
    when it is negative. *)
Definition str_of_int (n : Z) : text :=
  lit (NilZero.string_of_int (Z.to_int n)).

(** [str.isspace] on one code point; this is also what [\s] matches in a
    [str] pattern and what [str.strip()] removes. *)
Definition isspace (c : char) : bool :=
  ((9 <=? c) && (c <=? 13) || (28 <=? c) && (c <=? 32)
   || (c =? 133) || (c =? 160) || (c =? 5760)
   || (8192 <=? c) && (c <=? 8202)
   || (c =? 8232) || (c =? 8233) || (c =? 8239) || (c =? 8287)
   || (c =? 12288))%N.

Fixpoint lstrip (t : text) : text :=
  match t with
  | c :: t' => if isspace c then lstrip t' else t
  | [] => []
  end.

Definition rstrip (t : text) : text := rev (lstrip (rev t)).

(** [s.strip()] *)
Definition strip (t : text) : text := rstrip (lstrip t).

(** [sep.join(parts)] *)
Fixpoint join (sep : text) (parts : list text) : text :=
  match parts with
  | [] => []
  | [p] => p
  | p :: ps => p ++ sep ++ join sep ps
  end.

(** [s.startswith(p)] *)
Fixpoint startswith (p t : text) : bool :=
  match p, t with
  | [], _ => true
  | a :: p', b :: t' => (a =? b)%N && startswith p' t'
  | _ :: _, [] => false
  end.

(** [p in s] *)
Fixpoint contains (p t : text) : bool :=
  startswith p t || match t with
                    | [] => false
                    | _ :: t' => contains p t'
                    end.

End Text.
Export Text.

(** ** hashlib.md5 *)

Module MD5.

Definition mask32 : Z := 0xffffffff.
Definition add32 (x y : Z) : Z := Z.land (x + y) mask32.
Definition not32 (x : Z) : Z := Z.lxor x mask32.
Definition rotl32 (x : Z) (s : Z) : Z :=
  Z.land (Z.lor (Z.shiftl x s) (Z.shiftr x (32 - s))) mask32.

Definition S_table : list Z :=
  [7; 12; 17; 22; 7; 12; 17; 22; 7; 12; 17; 22; 7; 12; 17; 22;
   5; 9; 14; 20; 5; 9; 14; 20; 5; 9; 14; 20; 5; 9; 14; 20;
   4; 11; 16; 23; 4; 11; 16; 23; 4; 11; 16; 23; 4; 11; 16; 23;
   6; 10; 15; 21; 6; 10; 15; 21; 6; 10; 15; 21; 6; 10; 15; 21].

Definition K_table : list Z :=
  [0xd76aa478; 0xe8c7b756; 0x242070db; 0xc1bdceee;
   0xf57c0faf; 0x4787c62a; 0xa8304613; 0xfd469501;
   0x698098d8; 0x8b44f7af; 0xffff5bb1; 0x895cd7be;
   0x6b901122; 0xfd987193; 0xa679438e; 0x49b40821;
   0xf61e2562; 0xc040b340; 0x265e5a51; 0xe9b6c7aa;
   0xd62f105d; 0x02441453; 0xd8a1e681; 0xe7d3fbc8;
   0x21e1cde6; 0xc33707d6; 0xf4d50d87; 0x455a14ed;
   0xa9e3e905; 0xfcefa3f8; 0x676f02d9; 0x8d2a4c8a;
   0xfffa3942; 0x8771f681; 0x6d9d6122; 0xfde5380c;
   0xa4beea44; 0x4bdecfa9; 0xf6bb4b60; 0xbebfbc70;
   0x289b7ec6; 0xeaa127fa; 0xd4ef3085; 0x04881d05;
   0xd9d4d039; 0xe6db99e5; 0x1fa27cf8; 0xc4ac5665;
   0xf4292244; 0x432aff97; 0xab9423a7; 0xfc93a039;
   0x655b59c3; 0x8f0ccc92; 0xffeff47d; 0x85845dd1;
   0x6fa87e4f; 0xfe2ce6e0; 0xa3014314; 0x4e0811a1;
   0xf7537e82; 0xbd3af235; 0x2ad7d2bb; 0xeb86d391].

Record state := St { sa : Z; sb : Z; sc : Z; sd : Z }.

Definition init : state :=
  St 0x67452301 0xefcdab89 0x98badcfe 0x10325476.

(** Little-endian bytes of the low [n] bytes of [x]. *)
Fixpoint le_bytes (n : nat) (x : Z) : list Z :=
  match n with
  | O => []
  | S n' => Z.land x 0xff :: le_bytes n' (Z.shiftr x 8)
  end.

Fixpoint le_word (bs : list Z) : Z :=
  match bs with
  | [] => 0
  | b :: bs' => Z.lor b (Z.shiftl (le_word bs') 8)
  end.

(** Message padding: a 1 bit, zeros up to 56 mod 64, then the bit length
    on 64 bits. *)
Definition pad (msg : list Z) : list Z :=
  let n := len msg in
  let zeros := (55 - n) mod 64 in
  msg ++ [0x80] ++ repeat 0 (Z.to_nat zeros)
      ++ le_bytes 8 (Z.land (8 * n) 0xffffffffffffffff).

Fixpoint words (n : nat) (bs : list Z) : list Z :=
  match n with
  | O => []
  | S n' => le_word (firstn 4 bs) :: words n' (skipn 4 bs)
  end.

Definition round (M : list Z) (i : Z) (st : state) : state :=
  let '(St A B C D) := st in
  let '(F, g) :=
    if i <? 16 then (Z.lor (Z.land B C) (Z.land (not32 B) D), i)
    else if i <? 32 then
      (Z.lor (Z.land D B) (Z.land (not32 D) C), (5 * i + 1) mod 16)
    else if i <? 48 then (Z.lxor B (Z.lxor C D), (3 * i + 5) mod 16)
    else (Z.lxor C (Z.lor B (not32 D)), (7 * i) mod 16) in
  let F' := add32 (add32 (add32 F A) (nth (Z.to_nat i) K_table 0))
                  (nth (Z.to_nat g) M 0) in
  St D (add32 B (rotl32 F' (nth (Z.to_nat i) S_table 0))) B C.

Definition block (st : state) (bs : list Z) : state :=
  let M := words 16 bs in
  let st' := fold_left (fun s i => round M (Z.of_nat i) s) (seq 0 64) st in
  St (add32 (sa st) (sa st')) (add32 (sb st) (sb st'))
     (add32 (sc st) (sc st')) (add32 (sd st) (sd st')).

Fixpoint blocks (n : nat) (st : state) (bs : list Z) : state :=
  match n with
  | O => st
  | S n' => blocks n' (block st (firstn 64 bs)) (skipn 64 bs)
  end.

Definition digest (msg : list byte) : list Z :=
  let p := pad (map (fun b => Z.of_N (Byte.to_N b)) msg) in
  let st := blocks (length p / 64) init p in
  le_bytes 4 (sa st) ++ le_bytes 4 (sb st)
    ++ le_bytes 4 (sc st) ++ le_bytes 4 (sd st).

Definition hex_digit (d : Z) : char :=
  if d <? 10 then Z.to_N (48 + d) else Z.to_N (87 + d).

(** [hashlib.md5(buf).hexdigest()] *)
Definition hexdigest (msg : list byte) : text :=
  flat_map (fun b => [hex_digit (Z.shiftr b 4); hex_digit (Z.land b 15)])
           (digest msg).

End MD5.

(** ** Exceptions and results *)

Module Py.

(** The classes of [Exception] the modelled code can meet.  Only
    subclasses of [Exception] are represented: these are what
    [except Exception] catches. *)
Inductive exn_class :=
| ValueError | OSError | UnicodeDecodeError | JSONDecodeError
| AttributeError | ImportError | RuntimeError
| TypeError | UnicodeEncodeError.

(** An exception instance; [exn_str] is [str(e)]. *)
Record exn := Exception { exn_cls : exn_class; exn_str : text }.

(** The result of an operation that returns or raises. *)
Inductive res (A : Type) :=
| Ok (a : A)
| Raise (e : exn).
Arguments Ok {A} a.
Arguments Raise {A} e.

(** [isinstance(e, json.JSONDecodeError)] *)
Definition is_JSONDecodeError (e : exn) : bool :=
  match exn_cls e with JSONDecodeError => true | _ => false end.

(** Computations over a mutable state [S] that return or raise; the
    state changes made before an exception is raised stay. *)
Definition M (S A : Type) : Type := S -> res A * S.

Definition ret {S A} (a : A) : M S A := fun st => (Ok a, st).

Definition bind {S A B} (m : M S A) (k : A -> M S B) : M S B :=
  fun st => match m st with
            | (Ok a, st') => k a st'
            | (Raise e, st') => (Raise e, st')
            end.

Definition raise {S A} (e : exn) : M S A := fun st => (Raise e, st).

(** [try: body / except Exception as e: handler e] *)
Definition try_except {S A} (body : M S A) (handler : exn -> M S A)
  : M S A :=
  fun st => match body st with
            | (Ok a, st') => (Ok a, st')
            | (Raise e, st') => handler e st'
            end.

(** A call that does not touch the state: its value, or its exception. *)
Definition lift {S A} (r : res A) : M S A := fun st => (r, st).

#[global] Instance M_ret {S} : MRet (M S) := @ret S.
#[global] Instance M_bind {S} : MBind (M S) := fun A B k m => bind m k.

End Py.
Export Py.

(** ** langchain documents *)

(** A metadata value: the types the loader and the vector store put
    there.  A float is carried as its IEEE 754 bit pattern; nothing is
    computed with it. *)
Inductive meta_value :=
| MStr (s : text)
| MInt (z : Z)
| MFloat (bits : Z)
| MBool (b : bool)
| MNone.

(** [type(v).__name__] *)
Definition type_name (v : meta_value) : string :=
  match v with
  | MStr _ => "str"
  | MInt _ => "int"
  | MFloat _ => "float"
  | MBool _ => "bool"
  | MNone => "NoneType"
  end.

Record Document := mkDocument {
  page_content : text;
  metadata : gmap text meta_value
}.

(** ** The text cleaning of [DocumentProcessor] *)

Module Clean.

(** Length of the run of line breaks at the head of the text. *)
Fixpoint count_nl (t : text) : nat :=
  match t with
  | c :: t' => if (c =? NL)%N then S (count_nl t') else O
  | [] => O
  end.

(** [re.sub(r'\n{3,}', '\n\n', text)]: the scan looks, at each position
    from the left, for the longest run of line breaks; a run of three or
    more is replaced by two and the scan resumes behind it, otherwise the
    character is copied and the scan moves one position on. *)
Equations? re_sub_newlines (t : text) : text by wf (length t) lt :=
  re_sub_newlines [] := [];
  re_sub_newlines (c :: t') with le_dec 3 (count_nl (c :: t')) := {
    | left _ := NL :: NL :: re_sub_newlines (skipn (count_nl (c :: t')) (c :: t'));
    | right _ := c :: re_sub_newlines t' }.
Proof.
  all: try (simpl; lia).
  rewrite length_skipn. simpl length. lia.
Qed.

(** [text.replace('\xa0', ' ')] *)
Definition replace_nbsp (t : text) : text :=
  map (fun c => if (c =? NBSP)%N then SPACE else c) t.

(** [DocumentProcessor.clean_text] *)
Definition clean_text (t : text) : text :=
  let t := re_sub_newlines t in
  let t := replace_nbsp t in
  strip t.

(** *** The cleaning as the specification words it *)

(** The text as its maximal runs of equal characters. *)
Fixpoint runs (t : text) : list (char * nat) :=
  match t with
  | [] => []
  | c :: t' =>
      match runs t' with
      | (d, n) :: r => if (c =? d)%N then (d, S n) :: r
                       else (c, 1%nat) :: (d, n) :: r
      | [] => [(c, 1%nat)]
      end
  end.

Definition unruns (r : list (char * nat)) : text :=
  flat_map (fun cn => repeat (fst cn) (snd cn)) r.

(** A run of 3 or more line breaks becomes exactly 2. *)
Definition collapse_run (cn : char * nat) : char * nat :=
  if (fst cn =? NL)%N && (3 <=? snd cn)%nat then (NL, 2%nat) else cn.

Definition collapse_line_breaks (t : text) : text :=
  unruns (map collapse_run (runs t)).

(** [v] is [u] with every non-breaking space replaced by a space and
    nothing else changed. *)
Definition nbsp_normalized (u v : text) : Prop :=
  length v = length u /\
  forall (i : nat) (c : char), u !! i = Some c ->
    v !! i = Some (if (c =? NBSP)%N then SPACE else c).

(** [v] is [u] without its leading and trailing whitespace. *)
Definition trimmed (u v : text) : Prop :=
  exists l r, u = l ++ v ++ r /\
    Forall (fun c => isspace c = true) l /\
    Forall (fun c => isspace c = true) r /\
    (forall c, head v = Some c -> isspace c = false) /\
    (forall c, last v = Some c -> isspace c = false).

End Clean.
Export Clean.

(** ** The chunker *)

Module Splitter.

(** The source delegates the splitting to [RecursiveCharacterTextSplitter],
    a class it imports and configures (chunk size, overlap, separators)
    but does not define.  The definitions of this module are modelled
    from section 4.3 (c)-(e) of the specification, in the shape of the
    routine the source calls: the first separator of the priority list
    that occurs in the text is used to cut it, each separator staying at
    the head of the piece it precedes; pieces shorter than the maximum are
    merged greedily up to the maximum, the tail of one chunk being
    carried over as the overlap of the next; longer pieces are split
    again with the remaining separators, the empty separator cutting at
    every character, and a piece that is still too long when the
    separators are exhausted is cut at character boundaries. *)
Section Splitter.

Variable chunk_size : Z.
Variable chunk_overlap : Z.

(** Pieces of [t] between the occurrences of the non-empty [sep], read
    from the left; [skip] counts the characters of a matched separator
    still to be passed and [cur] holds the current piece, reversed. *)
Fixpoint re_split (sep : text) (skip : nat) (cur : text) (t : text)
  : list text :=
  match t with
  | [] => [rev cur]
  | c :: t' =>
      match skip with
      | S k => re_split sep k cur t'
      | O => if startswith sep t
             then rev cur :: re_split sep (length sep - 1) [] t'
             else re_split sep 0%nat (c :: cur) t'
      end
  end.

Definition nonempty (s : text) : bool :=
  match s with [] => false | _ => true end.

(** Modelled from the spec: the cut at one separator (4.3 (c), (d)), not
    defined under src/.  Cut [t] at [sep], keeping each separator in front
    of the piece that follows it; the empty separator cuts at every
    character.  Empty pieces are dropped. *)
Definition split_text_with_regex (t sep : text) : list text :=
  match sep with
  | [] => map (fun c => [c]) t
  | _ => filter (fun s => nonempty s)
           match re_split sep 0%nat [] t with
           | p :: ps => p :: map (app sep) ps
           | [] => []
           end
  end.

(** The joined, stripped text of a chunk; nothing when it is empty. *)
Definition join_docs (docs : list text) (sep : text) : option text :=
  match strip (join sep docs) with
  | [] => None
  | s => Some s
  end.

Definition sep_if (b : bool) (sep_len : Z) : Z :=
  if b then sep_len else 0.

(** Drop pieces from the front of the current chunk while it is longer
    than the overlap, or still too long to take the next piece. *)
Fixpoint pop_front (sep_len _len : Z) (cur : list text) (total : Z)
  : list text * Z :=
  match cur with
  | [] => ([], total)
  | c :: rest =>
      if (chunk_overlap <? total)
         || ((chunk_size <? total + _len + sep_if (0 <? len cur) sep_len)
             && (0 <? total))
      then pop_front sep_len _len rest
             (total - (len c + sep_if (1 <? len cur) sep_len))
      else (cur, total)
  end.

Record merge_state := MergeSt {
  m_docs : list text;
  m_current : list text;
  m_total : Z
}.

Definition merge_step (sep : text) (st : merge_state) (d : text)
  : merge_state :=
  let sep_len := len sep in
  let _len := len d in
  let st1 :=
    if chunk_size <? m_total st + _len
                     + sep_if (0 <? len (m_current st)) sep_len
    then
      match m_current st with
      | [] => st
      | _ =>
          let docs := match join_docs (m_current st) sep with
                      | Some doc => m_docs st ++ [doc]
                      | None => m_docs st
                      end in
          let '(cur, total) :=
            pop_front sep_len _len (m_current st) (m_total st) in
          MergeSt docs cur total
      end
    else st in
  let cur := m_current st1 ++ [d] in
  MergeSt (m_docs st1) cur
          (m_total st1 + _len + sep_if (1 <? len cur) sep_len).

(** Modelled from the spec: the merge with overlap (4.3 (e)), not defined
    under src/.  Merge small pieces into chunks of at most [chunk_size]. *)
Definition merge_splits (splits : list text) (sep : text) : list text :=
  let st := fold_left (merge_step sep) splits (MergeSt [] [] 0) in
  match join_docs (m_current st) sep with
  | Some doc => m_docs st ++ [doc]
  | None => m_docs st
  end.

Definition flush_good (good : list text) : list text :=
  match good with
  | [] => []
  | _ => merge_splits good []
  end.

(** Modelled from the spec: the hard split of 4.3 (d), not defined under
    src/.  A piece that still exceeds the maximum when no separator is
    left is cut at character boundaries: its characters are merged into
    chunks like any other pieces. *)
Definition hard_split (s : text) : list text :=
  if len s <=? chunk_size then [s]
  else merge_splits (map (fun c => [c]) s) [].

(** Modelled from the spec: the loop over the pieces of one cut (4.3 (c),
    (d)), not defined under src/.  Small pieces are gathered and merged; a
    large one is split further by [recur] when separators remain and
    hard-split otherwise. *)
Fixpoint assemble (recur : option (text -> list text))
         (splits good : list text) : list text :=
  match splits with
  | [] => flush_good good
  | s :: rest =>
      if len s <? chunk_size then assemble recur rest (good ++ [s])
      else flush_good good
             ++ match recur with
                | None => hard_split s
                | Some f => f s
                end
             ++ assemble recur rest []
  end.

(** Modelled from the spec: the recursive split on the priority list of
    separators (4.3 (c), (d)), not defined under src/.  [dflt] is the last
    separator of the configured list, used when none occurs in the
    text. *)
Fixpoint split_rec (seps : list text) (dflt : text) (t : text)
  : list text :=
  match seps with
  | [] => assemble None (split_text_with_regex t dflt) []
  | s :: rest =>
      match s with
      | [] => assemble None (split_text_with_regex t s) []
      | _ =>
          if contains s t
          then assemble
                 match rest with
                 | [] => None
                 | _ => Some (split_rec rest dflt)
                 end
                 (split_text_with_regex t s) []
          else split_rec rest dflt t
      end
  end.

Definition split_text (seps : list text) (t : text) : list text :=
  split_rec seps (List.last seps []) t.

(** Modelled from the spec: [split_documents], the operation
    [process_file] calls, not defined under src/.  Every document is cut
    on its own and each chunk inherits the metadata of its document. *)
Definition split_documents (seps : list text) (docs : list Document)
  : list Document :=
  flat_map (fun d => map (fun c => mkDocument c (metadata d))
                         (split_text seps (page_content d)))
           docs.

End Splitter.

(** The splitter object: what its constructor was given. *)
Record TextSplitter := mkSplitter {
  _chunk_size : Z;
  _chunk_overlap : Z;
  _separators : list text
}.

(** Modelled from the spec: the constructor of the splitter, not defined
    under src/.  Section 4.3 takes a maximum chunk size and an overlap
    bounded by it ((e)); the constructor refuses a configuration outside
    these bounds with a [ValueError], and [process_file], which builds
    the splitter outside its [try], passes the exception on. *)
Definition RecursiveCharacterTextSplitter
           (chunk_size chunk_overlap : Z) (separators : list text)
  : res TextSplitter :=
  if chunk_size <=? 0 then
    Raise (Exception ValueError
             (lit "chunk_size must be > 0, got " ++ str_of_int chunk_size))
  else if chunk_overlap <? 0 then
    Raise (Exception ValueError
             (lit "chunk_overlap must be >= 0, got "
              ++ str_of_int chunk_overlap))
  else if chunk_size <? chunk_overlap then
    Raise (Exception ValueError
             (lit "Got a larger chunk overlap (" ++ str_of_int chunk_overlap
              ++ lit ") than chunk size (" ++ str_of_int chunk_size
              ++ lit "), should be smaller."))
  else Ok (mkSplitter chunk_size chunk_overlap separators).

(** The summed length of the pieces of a chunk under construction. *)
Definition total_len (pieces : list text) : Z :=
  fold_right (fun s acc => len s + acc) 0 pieces.

(** The bound every chunk has to meet. *)
Definition within (chunk_size : Z) (s : text) : Prop := len s <= chunk_size.

(** The invariant of the merge loop: the running total is the summed
    length of the current pieces, it fits, and so does every chunk
    emitted so far. *)
Definition merge_inv (chunk_size : Z) (st : merge_state) : Prop :=
  m_total st = total_len (m_current st)
  /\ m_total st <= chunk_size
  /\ Forall (within chunk_size) (m_docs st).

End Splitter.
(** ** ingest_manuals.py *)

Module Ingest.

Record IngestionConfig := mkConfig {
  source_dir : text;
  persist_dir : text;
  embedding_model : text;
  chunk_size : Z;
  chunk_overlap : Z;
  registry_file : text;
  separators : list text
}.

(** [IngestionConfig()], the configuration [RAGPipeline] builds. *)
Definition default_config : IngestionConfig := {|
  source_dir := lit "bike_manuals";
  persist_dir := lit "./chroma_db";
  embedding_model := lit "sentence-transformers/all-mpnet-base-v2";
  chunk_size := 800;
  chunk_overlap := 200;
  registry_file := lit "processed_files.json";
  separators := [[NL; NL]; [NL]; [SPACE]; []]
|}.

(** A PDF found by the scan: [str(file_path)] and what opening the file
    and reading it gives, its bytes or the exception of [open] or
    [read]. *)
Record SourceFile := mkFile {
  file_path : text;
  file_read : res (list byte)
}.

(** The final path component: [file_path.name], [os.path.basename]. *)
Fixpoint basename_from (cur : text) (t : text) : text :=
  match t with
  | [] => rev cur
  | c :: t' => if (c =? 47)%N then basename_from [] t'
               else basename_from (c :: cur) t'
  end.

Definition basename (p : text) : text := basename_from [] p.

Definition name (f : SourceFile) : text := basename (file_path f).

(** [DocumentProcessor.calculate_file_hash]: the file is opened and read
    outside any [try]. *)
Definition calculate_file_hash (f : SourceFile) : res text :=
  match file_read f with
  | Ok buf => Ok (MD5.hexdigest buf)
  | Raise e => Raise e
  end.

(** [re.split(r'[_\-\s]', filename)[0]] *)
Fixpoint first_field (t : text) : text :=
  match t with
  | [] => []
  | c :: t' => if (c =? 95)%N || (c =? 45)%N || isspace c then []
               else c :: first_field t'
  end.

(** [DocumentProcessor.extract_metadata] *)
Definition extract_metadata (path : text) : gmap text meta_value :=
  let filename := basename path in
  let bike_model := first_field filename in
  <[lit "source" := MStr filename]>
    (<[lit "bike_model" := MStr bike_model]>
       (<[lit "file_path" := MStr path]> ∅)).

(** [dict.update]: the entries of [new] replace those of [old]. *)
Definition dict_update (old new : gmap text meta_value)
  : gmap text meta_value := new ∪ old.

(** *** The log and the state of a run *)

Inductive message :=
| MsgStarting
| MsgNoSourceDir (dir : text)
| MsgFound (n : Z) (dir : text)
| MsgSkipping (filename : text)
| MsgProcessing (filename : text)
| MsgLoadFailed (path : text) (e : exn)
| MsgAdded (n : Z) (filename : text)
| MsgNoContent (filename : text)
| MsgComplete (n : Z)
| MsgNothingNew
| MsgValidating (query : text)
| MsgValidationSuccess (source : meta_value) (preview : text)
| MsgValidationEmpty.

(** What a run does to the outside, in order: log records, insertions
    into the vector index, and writes of the registry file. *)
Inductive event :=
| LogInfo (m : message)
| LogWarning (m : message)
| LogError (m : message)
| IndexAdd (docs : list Document)
| IndexAddRaised (docs : list Document) (e : exn)
| RegistrySaved (reg : gmap text text).

(** [VectorDatabase] with the log: the registry dictionary (kept equal to
    the registry file by the write-through [mark_processed]), the content
    of the vector index, and the events so far. *)
Record State := mkState {
  registry : gmap text text;
  vectorstore : list Document;
  trace : list event
}.

(** The collaborators outside the repository: the PDF loader and the
    vector index.  [add_fault] tells whether an insertion raises, given
    everything that happened before it. *)
Record Backend := mkBackend {
  pdf_load : SourceFile -> res (list Document);
  add_fault : list event -> list Document -> option exn;
  similarity_search : list Document -> text -> Z -> res (list Document)
}.

Definition emit (ev : event) : M State unit :=
  fun st => (Ok tt, mkState (registry st) (vectorstore st)
                            (trace st ++ [ev])).

(** *** DocumentProcessor *)

(** The page filter of [process_file]: empty or shorter than 50
    characters once stripped. *)
Definition too_short (d : Document) : bool :=
  match page_content d with
  | [] => true
  | _ => len (strip (page_content d)) <? 50
  end.

Definition clean_doc (path : text) (d : Document) : Document :=
  mkDocument (clean_text (page_content d))
             (dict_update (metadata d) (extract_metadata path)).

Definition cleaned_docs (path : text) (raw_docs : list Document)
  : list Document :=
  map (clean_doc path) (filter (fun d => negb (too_short d)) raw_docs).

(** [text_splitter.split_documents(cleaned_docs)] *)
Definition split_documents (text_splitter : Splitter.TextSplitter)
           (docs : list Document) : list Document :=
  Splitter.split_documents (Splitter._chunk_size text_splitter)
    (Splitter._chunk_overlap text_splitter)
    (Splitter._separators text_splitter) docs.

(** [DocumentProcessor.process_file].  Building the loader object for a
    file the scan has found is taken not to raise; [pdf_load] is its
    [load()], the call inside the [try].  The splitter is built after the
    pages are cleaned, outside the [try]. *)
Definition process_file (cfg : IngestionConfig) (env : Backend)
           (f : SourceFile) : M State (list Document) :=
  match pdf_load env f with
  | Raise e =>
      emit (LogError (MsgLoadFailed (file_path f) e));;
      ret []
  | Ok raw_docs =>
      let cleaned_docs := cleaned_docs (file_path f) raw_docs in
      text_splitter ←
        lift (Splitter.RecursiveCharacterTextSplitter
                (chunk_size cfg) (chunk_overlap cfg) (separators cfg));
      ret (split_documents text_splitter cleaned_docs)
  end.

(** *** VectorDatabase *)

(** [VectorDatabase.is_processed] *)
Definition is_processed (filename file_hash : text) : M State bool :=
  fun st => (Ok (bool_decide (registry st !! filename = Some file_hash)),
             st).

(** [VectorDatabase._save_registry]; the write of the registry file is
    taken to succeed, so the file holds what the dictionary holds. *)
Definition _save_registry : M State unit :=
  fun st => emit (RegistrySaved (registry st)) st.

(** [VectorDatabase.mark_processed] *)
Definition mark_processed (filename file_hash : text) : M State unit :=
  (fun st => (Ok tt, mkState (<[filename := file_hash]> (registry st))
                             (vectorstore st) (trace st)));;
  _save_registry.

(** [VectorDatabase.add_documents] *)
Definition add_documents (env : Backend) (documents : list Document)
  : M State unit :=
  match documents with
  | [] => ret tt
  | _ =>
      fun st =>
        match add_fault env (trace st) documents with
        | Some e =>
            (Raise e, mkState (registry st) (vectorstore st)
                              (trace st ++ [IndexAddRaised documents e]))
        | None =>
            (Ok tt, mkState (registry st) (vectorstore st ++ documents)
                            (trace st ++ [IndexAdd documents]))
        end
  end.

(** [VectorDatabase.query] *)
Definition query (env : Backend) (query_text : text) (k : Z)
  : M State (list Document) :=
  fun st => match similarity_search env (vectorstore st) query_text k with
            | Ok r => (Ok r, st)
            | Raise e => (Raise e, st)
            end.

(** *** RAGPipeline *)

(** The body of the loop of [run] for one file; the value is the number
    of chunks it adds to [new_docs_count]. *)
Definition ingest_file (cfg : IngestionConfig) (env : Backend)
           (f : SourceFile) : M State Z :=
  file_hash ← lift (calculate_file_hash f);
  let filename := name f in
  processed ← is_processed filename file_hash;
  if (processed : bool) then
    emit (LogInfo (MsgSkipping filename));;
    ret 0
  else
    emit (LogInfo (MsgProcessing filename));;
    docs ← process_file cfg env f;
    match docs with
    | _ :: _ =>
        add_documents env docs;;
        mark_processed filename file_hash;;
        emit (LogInfo (MsgAdded (len docs) filename));;
        ret (len docs)
    | [] =>
        emit (LogWarning (MsgNoContent filename));;
        ret 0
    end.

(** The loop of [run] over the files of the scan. *)
Fixpoint ingest_files (cfg : IngestionConfig) (env : Backend)
         (pdf_files : list SourceFile) (new_docs_count : Z) : M State Z :=
  match pdf_files with
  | [] => ret new_docs_count
  | f :: rest =>
      n ← ingest_file cfg env f;
      ingest_files cfg env rest (new_docs_count + n)
  end.

Definition test_query : text := lit "How to adjust chain slack?".

(** [RAGPipeline.validate] *)
Definition validate (env : Backend) : M State unit :=
  emit (LogInfo (MsgValidating test_query));;
  results ← query env test_query 3;
  match results with
  | top_doc :: _ =>
      let preview :=
        map (fun c => if (c =? NL)%N then SPACE else c)
            (firstn 200 (page_content top_doc)) in
      emit (LogInfo (MsgValidationSuccess
                       (default (MStr (lit "Unknown"))
                                (metadata top_doc !! lit "source"))
                       preview))
  | [] => emit (LogWarning MsgValidationEmpty)
  end.

(** [RAGPipeline.run]; [scan] is the result of the recursive scan of the
    source directory, [None] when the directory does not exist. *)
Definition run (cfg : IngestionConfig) (env : Backend)
           (scan : option (list SourceFile)) : M State unit :=
  emit (LogInfo MsgStarting);;
  match scan with
  | None => emit (LogError (MsgNoSourceDir (source_dir cfg)))
  | Some pdf_files =>
      emit (LogInfo (MsgFound (len pdf_files) (source_dir cfg)));;
      new_docs_count ← ingest_files cfg env pdf_files 0;
      (if 0 <? new_docs_count
       then emit (LogInfo (MsgComplete new_docs_count))
       else emit (LogInfo MsgNothingNew));;
      validate env
  end.

(** *** Loading the registry *)

(** A value [json.load] can return. *)
#[warnings="-register-all"]
Inductive json :=
| JNull
| JBool (b : bool)
| JNum (z : Z)
| JStr (s : text)
| JArr (l : list json)
| JObj (l : list (text * json)).

(** What is at the path [registry_file] when the database object is
    built. *)
Inductive registry_path :=
| Absent
| OpenFails (e : exn)
| ReadFails (e : exn)
| Contents (s : text).

(** [os.path.exists(registry_file)] *)
Definition path_exists (p : registry_path) : bool :=
  match p with Absent => false | _ => true end.

(** [with open(registry_file, 'r') as f: return json.load(f)], the
    decoder [json_loads] being the library's. *)
Definition open_and_load (json_loads : text -> res json)
           (p : registry_path) : res json :=
  match p with
  | Absent =>
      Raise (Exception OSError (lit "No such file or directory"))
  | OpenFails e => Raise e
  | ReadFails e => Raise e
  | Contents s => json_loads s
  end.

(** [VectorDatabase._load_registry] *)
Definition _load_registry (json_loads : text -> res json)
           (p : registry_path) : res json :=
  if path_exists p then
    match open_and_load json_loads p with
    | Ok v => Ok v
    | Raise e => if is_JSONDecodeError e then Ok (JObj []) else Raise e
    end
  else Ok (JObj []).

(** *** Reading a run's trace *)

Definition is_insertion (ev : event) : bool :=
  match ev with
  | IndexAdd _ | IndexAddRaised _ _ => true
  | _ => false
  end.

(** The calls that add vectors to the index. *)
Definition insertions (tr : list event) : list event :=
  filter (fun ev => is_insertion ev) tr.

(** The files a run went on to process (those it did not skip). *)
Fixpoint processed_files (tr : list event) : list text :=
  match tr with
  | [] => []
  | LogInfo (MsgProcessing n) :: tr' => n :: processed_files tr'
  | _ :: tr' => processed_files tr'
  end.

#[global] Arguments calculate_file_hash : simpl never.
#[global] Arguments name : simpl never.
#[global] Arguments Splitter.split_documents : simpl never.
#[global] Arguments str_of_int : simpl never.
#[global] Arguments cleaned_docs : simpl never.
#[global] Arguments len : simpl never.
#[global] Arguments lit : simpl never.

(** The splitter [process_file] builds from the configuration. *)
Definition splitter (cfg : IngestionConfig) : res Splitter.TextSplitter :=
  Splitter.RecursiveCharacterTextSplitter
    (chunk_size cfg) (chunk_overlap cfg) (separators cfg).

(** What [process_file] gives for a file, the log apart: the chunks it
    returns, or the exception of the splitter's constructor. *)
Definition process_result (cfg : IngestionConfig) (env : Backend)
           (f : SourceFile) : res (list Document) :=
  match pdf_load env f with
  | Ok raw_docs =>
      match splitter cfg with
      | Ok text_splitter =>
          Ok (split_documents text_splitter
                (cleaned_docs (file_path f) raw_docs))
      | Raise e => Raise e
      end
  | Raise _ => Ok []
  end.

(** The chunks [process_file] returns for a file; none when it raises. *)
Definition chunks (cfg : IngestionConfig) (env : Backend) (f : SourceFile)
  : list Document :=
  match process_result cfg env f with
  | Ok docs => docs
  | Raise _ => []
  end.

Definition load_log (env : Backend) (f : SourceFile) : list event :=
  match pdf_load env f with
  | Ok _ => []
  | Raise e => [LogError (MsgLoadFailed (file_path f) e)]
  end.

(** The registry says the file is unchanged since it was ingested: the
    file can be read and the registry holds its fingerprint. *)
Definition current (reg : gmap text text) (f : SourceFile) : Prop :=
  exists file_hash,
    calculate_file_hash f = Ok file_hash /\ reg !! name f = Some file_hash.

Definition is_registry_save (ev : event) : bool :=
  match ev with RegistrySaved _ => true | _ => false end.

(** The state with more events in its log. *)
Definition log (st : State) (evs : list event) : State :=
  mkState (registry st) (vectorstore st) (trace st ++ evs).

(** A file is settled when the registry has its fingerprint or when it
    can be read and yields no chunk: the loop then leaves the index
    alone. *)
Definition settled (cfg : IngestionConfig) (env : Backend)
           (reg : gmap text text) (f : SourceFile) : Prop :=
  current reg f
  \/ ((exists file_hash, calculate_file_hash f = Ok file_hash)
      /\ process_result cfg env f = Ok []).

(** What ingesting a file that is not current does to the index and to
    the registry, [tr] being the events and [r] the outcome: no insertion
    when the splitter cannot be built (its exception is the outcome) or
    when the file yields no chunk; otherwise one insertion of the file's
    chunks, which either raises (its exception is the outcome, and the
    registry and the index stay) or returns, and then the file is
    registered with its fingerprint. *)
Definition reingests {A} (cfg : IngestionConfig) (env : Backend)
           (f : SourceFile) (file_hash : text)
           (st : State) (r : res A) (st' : State) (tr : list event)
  : Prop :=
  match process_result cfg env f with
  | Raise e =>
      r = Raise e /\ insertions tr = []
      /\ registry st' = registry st /\ vectorstore st' = vectorstore st
  | Ok [] =>
      insertions tr = []
      /\ registry st' = registry st /\ vectorstore st' = vectorstore st
  | Ok docs =>
      (exists e, r = Raise e /\ insertions tr = [IndexAddRaised docs e]
                 /\ registry st' = registry st
                 /\ vectorstore st' = vectorstore st)
      \/ (insertions tr = [IndexAdd docs]
          /\ registry st' = <[name f := file_hash]> (registry st)
          /\ vectorstore st' = vectorstore st ++ docs)
  end.

End Ingest.

(** ** rag_retrieval.py *)

Module Retrieval.

(** The objects held in the module's globals. *)
Record VectorStore := mkVectorStore {
  vs_similarity_search : text -> Z -> res (list Document)
}.

(** [llm.invoke(prompt).content] *)
Record ChatModel := mkChatModel {
  invoke_content : text -> res text
}.

Record PromptTemplate := mkPrompt {
  template : text;
  input_variables : list text
}.

Record Globals := mkGlobals {
  vector_store : option VectorStore;
  llm : option ChatModel;
  PROMPT : option PromptTemplate
}.

(** What a call does to the outside, in order. *)
Inductive event :=
| Print (s : text)
| PrintTraceback (e : exn)
| Search (q : text) (k : Z)
| Invoke (prompt : text).

Record State := mkState {
  globals : Globals;
  trace : list event
}.

(** What initialisation finds: the imports, the API key in the
    environment once the [.env] file is loaded, and the three
    constructors. *)
Record Env := mkEnv {
  imports : option exn;
  GOOGLE_API_KEY : option text;
  HuggingFaceEmbeddings : option exn;
  Chroma : res VectorStore;
  ChatGoogleGenerativeAI : res ChatModel
}.

Record Response := mkResponse {
  result : text;
  source_documents : list Document
}.

(** The standard streams of the process.  A write can raise (a text the
    stream cannot encode, a stream that is closed): [stdout_fault] and
    [stderr_fault] tell whether it does, given everything that happened
    before it. *)
Record Console := mkConsole {
  stdout_fault : list event -> text -> option exn;
  stderr_fault : list event -> exn -> option exn
}.

Definition emit (ev : event) : M State unit :=
  fun st => (Ok tt, mkState (globals st) (trace st ++ [ev])).

(** [print(s)] *)
Definition print (con : Console) (s : text) : M State unit :=
  fun st =>
    match stdout_fault con (trace st) s with
    | Some e => (Raise e, st)
    | None => emit (Print s) st
    end.

(** [traceback.print_exc()] in the handler of the exception [e] *)
Definition print_exc (con : Console) (e : exn) : M State unit :=
  fun st =>
    match stderr_fault con (trace st) e with
    | Some e' => (Raise e', st)
    | None => emit (PrintTraceback e) st
    end.

Definition set_globals (f : Globals -> Globals) : M State unit :=
  fun st => (Ok tt, mkState (f (globals st)) (trace st)).

Definition get_globals : M State Globals :=
  fun st => (Ok (globals st), st).

(** A constructor call: its object, or its exception. *)
Definition call {A} (r : res A) : M State A :=
  match r with
  | Ok a => ret a
  | Raise e => raise e
  end.

Definition check (fault : option exn) : M State unit :=
  match fault with
  | None => ret tt
  | Some e => raise e
  end.

Definition prompt_text_1 : text :=
  lit "Use the following pieces of context to answer the question at the end."
  ++ [NL]
  ++ lit "If you don't know the answer, just say that you don't know, don't try to make up an answer."
  ++ [NL]
  ++ lit "IMPORTANT: After answering, please provide a 'Context Adherence Score' (0-100%) indicating how much of your answer is based strictly on the provided context vs your general knowledge."
  ++ [NL; NL] ++ lit "Context:" ++ [NL].

(** The template string of [initialize_rag]. *)
Definition template_text : text :=
  prompt_text_1 ++ lit "{context}"
  ++ [NL; NL] ++ lit "Question: " ++ lit "{question}"
  ++ [NL; NL] ++ lit "Answer:".

(** Substitution of the two fields of the template; [skip] counts the
    characters of a field name still to be passed. *)
Fixpoint substitute (context question : text) (skip : nat) (t : text)
  : text :=
  match t with
  | [] => []
  | c :: t' =>
      match skip with
      | S k => substitute context question k t'
      | O =>
          if startswith (lit "{context}") t
          then context ++ substitute context question 8 t'
          else if startswith (lit "{question}") t
          then question ++ substitute context question 9 t'
          else c :: substitute context question 0 t'
      end
  end.

(** [PROMPT.format(context=..., question=...)] *)
Definition format (p : PromptTemplate) (context question : text) : text :=
  substitute context question 0 (template p).

Definition no_api_key : exn :=
  Exception ValueError
    (lit "GOOGLE_API_KEY environment variable is not set. Please create a .env file or set the variable.").

(** [initialize_rag] *)
Definition initialize_rag (con : Console) (env : Env) : M State unit :=
  try_except
    (print con (lit "Initializing RAG pipeline (Manual Mode)...");;
     check (imports env);;
     match GOOGLE_API_KEY env with
     | None | Some [] => raise no_api_key
     | Some _ => ret tt
     end;;
     print con (lit "Loading embeddings...");;
     check (HuggingFaceEmbeddings env);;
     print con (lit "Loading Vector DB...");;
     vs ← call (Chroma env);
     set_globals (fun g => mkGlobals (Some vs) (llm g) (PROMPT g));;
     print con (lit "Loading LLM...");;
     m ← call (ChatGoogleGenerativeAI env);
     set_globals (fun g => mkGlobals (vector_store g) (Some m) (PROMPT g));;
     set_globals (fun g =>
       mkGlobals (vector_store g) (llm g)
                 (Some (mkPrompt template_text
                                 [lit "context"; lit "question"])));;
     print con (lit "RAG pipeline initialized successfully."))
    (fun e =>
       print con (lit "Failed to initialize RAG: " ++ exn_str e);;
       raise e).

(** Attribute access on a global that may still be [None]. *)
Definition attr {A} (o : option A) (attribute : string) : M State A :=
  match o with
  | Some a => ret a
  | None =>
      raise (Exception AttributeError
               (lit "'NoneType' object has no attribute '"
                ++ lit attribute ++ lit "'"))
  end.

(** The [try] block of [get_answer]. *)
Definition answer_body (con : Console) (question : text)
  : M State Response :=
  print con (lit "Retrieving documents...");;
  g ← get_globals;
  vs ← attr (vector_store g) "similarity_search";
  emit (Search question 4);;
  source_documents ← call (vs_similarity_search vs question 4);
  let context := join [NL; NL] (map page_content source_documents) in
  print con (lit "Generating answer...");;
  g ← get_globals;
  p ← attr (PROMPT g) "format";
  let formatted_prompt := format p context question in
  m ← attr (llm g) "invoke";
  emit (Invoke formatted_prompt);;
  result_text ← call (invoke_content m formatted_prompt);
  ret (mkResponse result_text source_documents).

(** The first block of [get_answer]: initialise on first use; the value
    is the response returned at once when initialisation fails. *)
Definition initialize_if_needed (con : Console) (env : Env)
  : M State (option Response) :=
  fun st =>
    match vector_store (globals st) with
    | None =>
        try_except
          (initialize_rag con env;; ret None)
          (fun e =>
             ret (Some (mkResponse
               (lit "System Error: Failed to initialize RAG pipeline. "
                ++ exn_str e) [])))
          st
    | Some _ => (Ok None, st)
    end.

(** [get_answer]: the question is printed between the two [try]
    blocks, outside both. *)
Definition get_answer (con : Console) (env : Env) (question : text)
  : M State Response :=
  early ← initialize_if_needed con env;
  match early with
  | Some response => ret response
  | None =>
      print con (lit "Question: " ++ question);;
      try_except
        (answer_body con question)
        (fun e =>
           print con (lit "Error running chain: " ++ exn_str e);;
           print_exc con e;;
           ret (mkResponse (lit "Error: " ++ exn_str e) []))
  end.

(** The prompts handed to the generation backend. *)
Fixpoint invocations (tr : list event) : list text :=
  match tr with
  | [] => []
  | Invoke p :: tr' => p :: invocations tr'
  | _ :: tr' => invocations tr'
  end.

Definition fresh : State := mkState (mkGlobals None None None) [].

(** A console on which no write raises. *)
Definition console_ok (con : Console) : Prop :=
  (forall tr s, stdout_fault con tr s = None)
  /\ (forall tr e, stderr_fault con tr e = None).

End Retrieval.

(** ** Concrete collaborators and corpora *)

Module Examples.

Import Ingest.

(** A loader for one-page files: the text after the [%PDF] header, read
    as Latin-1; anything without the header is rejected as corrupt. *)
Definition plain_loader (f : SourceFile) : res (list Document) :=
  match file_read f with
  | Ok (x25 :: x50 :: x44 :: x46 :: body) =>
      Ok [mkDocument (map Byte.to_N body)
            (<[lit "source" := MStr (file_path f)]>
               (<[lit "page" := MInt 0]> ∅))]
  | Ok _ => Raise (Exception RuntimeError (lit "invalid pdf header"))
  | Raise e => Raise e
  end.

Definition top_k (store : list Document) (q : text) (k : Z)
  : res (list Document) := Ok (firstn (Z.to_nat k) store).

(** An index that accepts every insertion, and one that is down. *)
Definition env_ok : Backend :=
  mkBackend plain_loader (fun _ _ => None) top_k.

Definition index_down : exn :=
  Exception RuntimeError (lit "index unavailable").

Definition env_down : Backend :=
  mkBackend plain_loader (fun _ _ => Some index_down) top_k.

Definition pdf (path body : string) : SourceFile :=
  mkFile (lit path) (Ok (list_byte_of_string ("%PDF" ++ body))).

Definition road_a : SourceFile :=
  pdf "bike_manuals/road/Manual.pdf"
      "chain slack adjustment: loosen axle nut, turn the adjuster, tighten.".

(** [road_a] with its last byte changed. *)
Definition road_a' : SourceFile :=
  pdf "bike_manuals/road/Manual.pdf"
      "chain slack adjustment: loosen axle nut, turn the adjuster, tighten!".

(** A second manual with the same file name in another directory. *)
Definition city_a : SourceFile :=
  pdf "bike_manuals/city/Manual.pdf"
      "tyre pressure: inflate front and rear tyres to the value on the sidewall.".

Definition trail_b : SourceFile :=
  pdf "bike_manuals/Trail_Manual.pdf"
      "brake pads: replace the pads when the wear line is no longer visible.".

(** A file whose only page is a cover line. *)
Definition cover_only : SourceFile :=
  pdf "bike_manuals/Cover.pdf" "Owner's manual".

Definition corrupt : SourceFile :=
  mkFile (lit "bike_manuals/Broken.pdf")
         (Ok (list_byte_of_string "not a pdf")).

(** A file the scan finds and the process may not open. *)
Definition not_permitted : exn :=
  Exception OSError
    (lit "[Errno 13] Permission denied: 'bike_manuals/Locked.pdf'").

Definition locked : SourceFile :=
  mkFile (lit "bike_manuals/Locked.pdf") (Raise not_permitted).

Definition empty_state : State := mkState ∅ [] [].

(** The fingerprint of a file that can be read. *)
Definition digest (f : SourceFile) : text :=
  match calculate_file_hash f with
  | Ok file_hash => file_hash
  | Raise _ => []
  end.

Definition cfg0 : IngestionConfig := default_config.

(** A corpus with pairwise distinct file names, and the state a first run
    over it leaves. *)
Definition corpus : list SourceFile := [road_a; trail_b; cover_only; corrupt].

Definition corpus_once : State :=
  snd (run cfg0 env_ok (Some corpus) empty_state).

(** Two manuals with the same file name in two directories, and the
    states after one and after two runs over them. *)
Definition twins : list SourceFile := [road_a; city_a].

Definition twins_once : State :=
  snd (run cfg0 env_ok (Some twins) empty_state).

Definition twins_twice : State :=
  snd (run cfg0 env_ok (Some twins) twins_once).

(** The events a state has beyond an earlier one. *)
Definition events_since (before after : State) : list event :=
  skipn (length (trace before)) (trace after).

(** Every file registered with its fingerprint. *)
Definition registered : State :=
  snd (run cfg0 env_ok (Some [trail_b; road_a]) empty_state).

Definition cover_once : State :=
  snd (run cfg0 env_ok (Some [cover_only]) empty_state).

Definition cover_twice : State :=
  snd (run cfg0 env_ok (Some [cover_only]) cover_once).

Definition road_done : State :=
  snd (ingest_files cfg0 env_ok [road_a] 0 empty_state).

(** A decoder that rejects everything as invalid JSON. *)
Definition reject_all (s : text) : res json :=
  Raise (Exception JSONDecodeError (lit "Expecting value")).

Definition permission_denied : exn :=
  Exception OSError (lit "Permission denied").

(** Retrieval: an index with nothing relevant, a backend that answers
    anyway. *)
Definition empty_index : Retrieval.VectorStore :=
  Retrieval.mkVectorStore (fun _ _ => Ok []).

Definition one_doc : Document :=
  mkDocument (lit "Check the oil level with the dipstick.") ∅.

Definition full_index : Retrieval.VectorStore :=
  Retrieval.mkVectorStore (fun _ _ => Ok [one_doc]).

Definition eager_model : Retrieval.ChatModel :=
  Retrieval.mkChatModel (fun _ => Ok (lit "Use 10W-40 oil.")).

Definition failing_model : Retrieval.ChatModel :=
  Retrieval.mkChatModel
    (fun _ => Raise (Exception RuntimeError (lit "quota exceeded"))).

Definition renv (vs : Retrieval.VectorStore) (m : Retrieval.ChatModel)
  : Retrieval.Env :=
  Retrieval.mkEnv None (Some (lit "key")) None (Ok vs) (Ok m).

Definition question : text := lit "How do I check the engine oil level?".

(** The globals once initialisation has succeeded. *)
Definition the_prompt : Retrieval.PromptTemplate :=
  Retrieval.mkPrompt Retrieval.template_text [lit "context"; lit "question"].

Definition ready (vs : Retrieval.VectorStore) (m : Retrieval.ChatModel)
  : Retrieval.State :=
  Retrieval.mkState (Retrieval.mkGlobals (Some vs) (Some m) (Some the_prompt))
                    [].

(** A console that takes every write, and one limited to ASCII, which
    refuses a text with any other character the way [print] does on such
    a stream. *)
Definition quiet : Retrieval.Console :=
  Retrieval.mkConsole (fun _ _ => None) (fun _ _ => None).

Definition cannot_encode : exn :=
  Exception UnicodeEncodeError
    (lit "'ascii' codec can't encode character '\xf9' in position 11: ordinal not in range(128)").

Definition ascii_console : Retrieval.Console :=
  Retrieval.mkConsole
    (fun _ s => if forallb (fun c => (c <? 128)%N) s then None
                else Some cannot_encode)
    (fun _ _ => None).

(** A question with a letter outside ASCII (the second one, U+00F9). *)
Definition question_fr : text :=
  lit "O" ++ [249%N] ++ lit " est le frein avant ?".

End Examples.

(** ** Checks on texts *)

Module TextChecks.

(** No suffix of the text starts with three line breaks. *)
Fixpoint calm (t : text) : bool :=
  match t with
  | [] => true
  | _ :: t' => (count_nl t <? 3)%nat && calm t'
  end.

(** A lower-case hexadecimal digit. *)
Definition is_hex_digit (c : char) : bool :=
  ((48 <=? c) && (c <=? 57) || (97 <=? c) && (c <=? 102))%N.

(** The characters that end the model tag in a file name: [_], [-] and
    whitespace. *)
Definition is_field_separator (c : char) : bool :=
  (c =? 95)%N || (c =? 45)%N || isspace c.

End TextChecks.
Export TextChecks.

(** ** Checks on the trace of a run *)

Module TraceChecks.

Import Ingest.

(** The chunks the successful insertions put into the index, in order. *)
Fixpoint added (tr : list event) : list Document :=
  match tr with
  | [] => []
  | IndexAdd docs :: tr' => docs ++ added tr'
  | _ :: tr' => added tr'
  end.

(** The file names the loop reached, skipped or processed, in order. *)
Fixpoint visited (tr : list event) : list text :=
  match tr with
  | [] => []
  | LogInfo (MsgSkipping n) :: tr' => n :: visited tr'
  | LogInfo (MsgProcessing n) :: tr' => n :: visited tr'
  | _ :: tr' => visited tr'
  end.

(** The closing records of the loop: the count of new chunks or the
    notice that there are none. *)
Fixpoint summaries (tr : list event) : list message :=
  match tr with
  | [] => []
  | LogInfo (MsgComplete n) :: tr' => MsgComplete n :: summaries tr'
  | LogInfo MsgNothingNew :: tr' => MsgNothingNew :: summaries tr'
  | _ :: tr' => summaries tr'
  end.

Definition is_index_add (ev : event) : bool :=
  match ev with IndexAdd _ => true | _ => false end.

(** Every write of the registry file comes directly after an insertion
    that returned; [prev_add] tells whether the event before the trace
    was one. *)
Fixpoint saves_follow_adds (prev_add : bool) (tr : list event) : bool :=
  match tr with
  | [] => true
  | ev :: tr' =>
      (if is_registry_save ev then prev_add else true)
      && saves_follow_adds (is_index_add ev) tr'
  end.

(** Whether the last event of a trace is an insertion that returned;
    [b] answers for the empty trace. *)
Definition ends_with_add (b : bool) (tr : list event) : bool :=
  fold_left (fun _ ev => is_index_add ev) tr b.

(** The things the loop body can do with a file: fail to read it, skip
    it, fail to build the splitter for it, find no chunk in it, fail to
    insert its chunks, or insert them and register the file. *)
Inductive file_events (cfg : IngestionConfig) (env : Backend)
          (f : SourceFile) : State -> res Z -> State -> Prop :=
| file_unreadable st e :
    calculate_file_hash f = Raise e ->
    file_events cfg env f st (Raise e) st
| file_skipped st :
    current (registry st) f ->
    file_events cfg env f st (Ok 0)
      (log st [LogInfo (MsgSkipping (name f))])
| file_split_refused st file_hash e :
    calculate_file_hash f = Ok file_hash ->
    ~ current (registry st) f -> process_result cfg env f = Raise e ->
    file_events cfg env f st (Raise e)
      (log st [LogInfo (MsgProcessing (name f))])
| file_without_chunks st file_hash :
    calculate_file_hash f = Ok file_hash ->
    ~ current (registry st) f -> process_result cfg env f = Ok [] ->
    file_events cfg env f st (Ok 0)
      (log st (LogInfo (MsgProcessing (name f)) :: load_log env f
               ++ [LogWarning (MsgNoContent (name f))]))
| file_insert_raised st file_hash e :
    calculate_file_hash f = Ok file_hash ->
    ~ current (registry st) f -> chunks cfg env f <> [] ->
    file_events cfg env f st (Raise e)
      (log st (LogInfo (MsgProcessing (name f)) :: load_log env f
               ++ [IndexAddRaised (chunks cfg env f) e]))
| file_inserted st file_hash :
    calculate_file_hash f = Ok file_hash ->
    ~ current (registry st) f -> chunks cfg env f <> [] ->
    file_events cfg env f st (Ok (len (chunks cfg env f)))
      (mkState (<[name f := file_hash]> (registry st))
               (vectorstore st ++ chunks cfg env f)
               (trace st
                ++ LogInfo (MsgProcessing (name f)) :: load_log env f
                ++ [IndexAdd (chunks cfg env f);
                    RegistrySaved (<[name f := file_hash]> (registry st));
                    LogInfo (MsgAdded (len (chunks cfg env f)) (name f))])).

(** The loop over the scan as a relation: it runs the body file by file
    and stops at the first file for which the body raises. *)
Inductive loop_events (cfg : IngestionConfig) (env : Backend)
  : list SourceFile -> Z -> State -> res Z -> State -> Prop :=
| loop_done n st :
    loop_events cfg env [] n st (Ok n) st
| loop_raised f rest n st e st1 :
    file_events cfg env f st (Raise e) st1 ->
    loop_events cfg env (f :: rest) n st (Raise e) st1
| loop_next f rest n st k st1 r st2 :
    file_events cfg env f st (Ok k) st1 ->
    loop_events cfg env rest (n + k) st1 r st2 ->
    loop_events cfg env (f :: rest) n st r st2.

(** The closing record of [run] for a count of new chunks. *)
Definition summary (n : Z) : message :=
  if 0 <? n then MsgComplete n else MsgNothingNew.

(** The records [run] and [validate] write around the loop. *)
Definition is_frame_event (ev : event) : bool :=
  match ev with
  | LogInfo MsgStarting | LogInfo (MsgFound _ _)
  | LogInfo (MsgValidating _) | LogInfo (MsgValidationSuccess _ _)
  | LogWarning MsgValidationEmpty => true
  | _ => false
  end.

End TraceChecks.
Export TraceChecks.

(** ** More concrete collaborators *)

Module MoreExamples.

Import Ingest Examples.

Definition search_down : exn :=
  Exception RuntimeError (lit "embedding backend unavailable").

(** An index that takes insertions but cannot be searched. *)
Definition env_blind : Backend :=
  mkBackend plain_loader (fun _ _ => None) (fun _ _ _ => Raise search_down).

Definition opening (cfg : IngestionConfig) (fs : list SourceFile)
  : list event :=
  [LogInfo MsgStarting; LogInfo (MsgFound (len fs) (source_dir cfg))].

Definition road_loop_done : State :=
  snd (ingest_files cfg0 env_blind [road_a] 0
         (log empty_state (opening cfg0 [road_a]))).

Definition road_ingested : State :=
  snd (ingest_file cfg0 env_ok road_a empty_state).

(** The state in which a run over a valid manual, a file that cannot be
    opened and another valid manual stops. *)
Definition road_then_locked : State :=
  snd (ingest_files cfg0 env_ok [road_a] 0
         (log empty_state (opening cfg0 ([road_a] ++ locked :: [trail_b])))).

End MoreExamples.

(** ** Checks on the trace of a call of [get_answer] *)

Module AnswerChecks.

Import Retrieval.

(** The searches made: query and number of results asked for. *)
Fixpoint searches (tr : list event) : list (text * Z) :=
  match tr with
  | [] => []
  | Search q k :: tr' => (q, k) :: searches tr'
  | _ :: tr' => searches tr'
  end.

Definition is_print (ev : event) : bool :=
  match ev with Print _ | PrintTraceback _ => true | _ => false end.

(** The prompt the template yields for a context and a question. *)
Definition prompt_for (context question : text) : text :=
  prompt_text_1 ++ context ++ [NL; NL] ++ lit "Question: " ++ question
  ++ [NL; NL] ++ lit "Answer:".

(** [str(e)] of the [AttributeError] raised by an attribute access on
    [None]. *)
Definition none_has_no (attribute : string) : text :=
  lit "'NoneType' object has no attribute '" ++ lit attribute ++ lit "'".

(** The prompt template object [initialize_rag] builds. *)
Definition built_prompt : PromptTemplate :=
  mkPrompt template_text [lit "context"; lit "question"].

(** The exception is one a write to the console raises. *)
Definition console_raises (con : Console) (e : exn) : Prop :=
  (exists tr s, stdout_fault con tr s = Some e)
  \/ (exists tr e0, stderr_fault con tr e0 = Some e).

End AnswerChecks.
Export AnswerChecks.

(** ** server.py *)

Module Server.

(** One entry of the [sources] list of a chat response. *)
Record SourceEntry := mkSource {
  content : text;
  source : text;
  page : meta_value
}.

Record ChatBody := mkChat {
  answer : text;
  sources : list SourceEntry
}.

(** What the handler gives back to the framework: the body of the
    response, or an [HTTPException]. *)
Inductive reply :=
| Returned (body : ChatBody)
| HTTPException (status_code : Z) (detail : text).

(** [str(e)] of the [TypeError] of [os.path.basename] on a value that is
    not a string. *)
Definition basename_type_error (v : meta_value) : text :=
  lit "expected str, bytes or os.PathLike object, not " ++ lit (type_name v).

(** The dictionary built for one source document; [inl] is the message of
    the exception when [os.path.basename] rejects the [source] value. *)
Definition source_entry (doc : Document) : text + SourceEntry :=
  match default (MStr []) (metadata doc !! lit "source") with
  | MStr s =>
      inr (mkSource (page_content doc) (Ingest.basename s)
             (default (MStr (lit "Unknown")) (metadata doc !! lit "page")))
  | v => inl (basename_type_error v)
  end.

(** The loop that fills [sources]; it stops at the first exception. *)
Fixpoint serialize (docs : list Document) (sources : list SourceEntry)
  : text + list SourceEntry :=
  match docs with
  | [] => inr sources
  | doc :: rest =>
      match source_entry doc with
      | inl detail => inl detail
      | inr entry => serialize rest (sources ++ [entry])
      end
  end.

(** The handler of [POST /api/chat]. *)
Definition chat (con : Retrieval.Console) (env : Retrieval.Env)
           (question : text) (st : Retrieval.State)
  : reply * Retrieval.State :=
  match Retrieval.get_answer con env question st with
  | (Raise e, st') => (HTTPException 500 (exn_str e), st')
  | (Ok response, st') =>
      match serialize (Retrieval.source_documents response) [] with
      | inl detail => (HTTPException 500 detail, st')
      | inr sources =>
          (Returned (mkChat (Retrieval.result response) sources), st')
      end
  end.

(** The [source] value of a document is a string, or missing. *)
Definition source_is_text (doc : Document) : bool :=
  match metadata doc !! lit "source" with
  | Some (MStr _) | None => true
  | Some _ => false
  end.

(** The entry of a document whose [source] is a string or missing. *)
Definition entry_of (doc : Document) : SourceEntry :=
  mkSource (page_content doc)
    (Ingest.basename
       match metadata doc !! lit "source" with
       | Some (MStr s) => s
       | _ => []
       end)
    (default (MStr (lit "Unknown")) (metadata doc !! lit "page")).

End Server.

(** ** Concrete states of the answering module *)

Module AnswerExamples.

Import Retrieval Examples.

(** The LLM client cannot be built; everything before it can. *)
Definition llm_down : exn :=
  Exception RuntimeError (lit "model not found").

Definition env_no_llm : Env :=
  mkEnv None (Some (lit "key")) None (Ok full_index) (Raise llm_down).

Definition half_started : State :=
  snd (get_answer quiet env_no_llm question fresh).

(** A document as the ingestion stores it, and one with a number where
    the source should be. *)
Definition stored_doc : Document :=
  mkDocument (lit "Check the oil level with the dipstick.")
    (<[lit "source" := MStr (lit "bike_manuals/road/Manual.pdf")]>
       (<[lit "page" := MInt 3]> ∅)).

Definition stored_index : VectorStore :=
  mkVectorStore (fun _ _ => Ok [stored_doc]).

End AnswerExamples.

(** * Properties *)

(** ** MD5 test vectors (RFC 1321) *)

Example md5_empty :
  MD5.hexdigest [] = lit "d41d8cd98f00b204e9800998ecf8427e".
Proof. vm_compute. reflexivity. Qed.

Example md5_abc :
  MD5.hexdigest (list_byte_of_string "abc")
  = lit "900150983cd24fb0d6963f7d28e17f72".
Proof. vm_compute. reflexivity. Qed.

Example md5_two_blocks :
  MD5.hexdigest (list_byte_of_string
    "12345678901234567890123456789012345678901234567890123456789012345678901234567890")
  = lit "57edf4a22be3c955ac49da2e2107b67a".
Proof. vm_compute. reflexivity. Qed.

(** ** Stripping *)

Section Strip.

Lemma lstrip_split (t : text) :
  exists l, t = l ++ lstrip t /\ Forall (fun c => isspace c = true) l.
Proof.
  induction t as [|c t IH]; simpl.
  - exists []. split; [reflexivity | constructor].
  - destruct (isspace c) eqn:E.
    + destruct IH as (l & Hl & Hs). exists (c :: l). split.
      * simpl. congruence.
      * constructor; assumption.
    + exists []. split; [reflexivity | constructor].
Qed.

Lemma lstrip_head (t : text) (c : char) :
  head (lstrip t) = Some c -> isspace c = false.
Proof.
  induction t as [|d t IH]; simpl; [discriminate|].
  destruct (isspace d) eqn:E; [exact IH|].
  simpl. intros [= <-]. exact E.
Qed.

Lemma lstrip_spaces (l : text) :
  Forall (fun c => isspace c = true) l -> lstrip l = [].
Proof.
  induction 1 as [|c l Hc _ IH]; simpl; [reflexivity|].
  rewrite Hc. exact IH.
Qed.

Lemma lstrip_app_spaces (l x : text) :
  Forall (fun c => isspace c = true) l -> lstrip (l ++ x) = lstrip x.
Proof.
  induction 1 as [|c l Hc _ IH]; simpl; [reflexivity|].
  rewrite Hc. exact IH.
Qed.

Lemma lstrip_fixed (x : text) :
  (forall c, head x = Some c -> isspace c = false) -> lstrip x = x.
Proof.
  destruct x as [|c x]; simpl; [reflexivity|].
  intros H. rewrite (H c eq_refl). reflexivity.
Qed.

Lemma lstrip_length (t : text) : (length (lstrip t) <= length t)%nat.
Proof.
  induction t as [|c t IH]; simpl; [lia|].
  destruct (isspace c); simpl; lia.
Qed.

Lemma rstrip_length (t : text) : (length (rstrip t) <= length t)%nat.
Proof.
  unfold rstrip. rewrite length_rev.
  etransitivity; [apply lstrip_length|]. rewrite length_rev. lia.
Qed.

Lemma strip_length (t : text) : (length (strip t) <= length t)%nat.
Proof.
  unfold strip. etransitivity; [apply rstrip_length | apply lstrip_length].
Qed.

Lemma head_rev_last (x : text) : head (rev x) = last x.
Proof.
  induction x as [|c x IH] using rev_ind; [reflexivity|].
  rewrite rev_unit, last_snoc. reflexivity.
Qed.

Lemma Forall_space_rev (l : text) :
  Forall (fun c => isspace c = true) l ->
  Forall (fun c => isspace c = true) (rev l).
Proof.
  rewrite !Forall_forall. intros H c Hc. apply H.
  apply list_elem_of_In, in_rev, list_elem_of_In. exact Hc.
Qed.

Lemma rstrip_split (t : text) :
  exists r, t = rstrip t ++ r /\ Forall (fun c => isspace c = true) r.
Proof.
  destruct (lstrip_split (rev t)) as (l & Hl & Hs).
  exists (rev l). split.
  - unfold rstrip. rewrite <- rev_app_distr, <- Hl, rev_involutive.
    reflexivity.
  - apply Forall_space_rev. exact Hs.
Qed.

Lemma rstrip_last (t : text) (c : char) :
  last (rstrip t) = Some c -> isspace c = false.
Proof.
  unfold rstrip. rewrite <- head_rev_last, rev_involutive.
  apply lstrip_head.
Qed.

(** [strip] is the trimming of the specification. *)
Lemma strip_trimmed (u : text) : trimmed u (strip u).
Proof.
  destruct (lstrip_split u) as (l & Hl & Hls).
  destruct (rstrip_split (lstrip u)) as (r & Hr & Hrs).
  exists l, r. repeat split; try assumption.
  - unfold strip. rewrite <- Hr. exact Hl.
  - intros c Hc. unfold strip in Hc.
    apply (lstrip_head u). rewrite Hr.
    destruct (rstrip (lstrip u)); [discriminate | exact Hc].
  - apply rstrip_last.
Qed.

(** The trimming of a text is unique. *)
Lemma trimmed_strip (u v : text) : trimmed u v -> v = strip u.
Proof.
  intros (l & r & -> & Hl & Hr & Hh & Hla).
  unfold strip. rewrite lstrip_app_spaces by assumption.
  destruct v as [|c v].
  - simpl. rewrite (lstrip_spaces r Hr). reflexivity.
  - rewrite lstrip_fixed by (simpl; intros d [= <-]; apply Hh; reflexivity).
    unfold rstrip. rewrite rev_app_distr.
    rewrite lstrip_app_spaces.
    + rewrite lstrip_fixed; [apply eq_sym, rev_involutive|].
      intros d Hd. rewrite head_rev_last in Hd. apply Hla. exact Hd.
    + apply Forall_space_rev. exact Hr.
Qed.

End Strip.

(** ** Text cleaning *)

Section CleanText.

Lemma count_nl_split (t : text) :
  t = repeat NL (count_nl t) ++ skipn (count_nl t) t
  /\ head (skipn (count_nl t) t) <> Some NL.
Proof.
  induction t as [|c t [IH1 IH2]]; simpl.
  - split; [reflexivity | discriminate].
  - destruct (N.eqb_spec c NL) as [->|Hne]; simpl.
    + split; [f_equal; exact IH1 | exact IH2].
    + split; [reflexivity | intros [= ?]; contradiction].
Qed.

Lemma runs_head (t : text) d n r :
  runs t = (d, n) :: r -> head t = Some d.
Proof.
  destruct t as [|c t]; simpl; [discriminate|].
  destruct (runs t) as [|[e m] r'].
  - intros [= <- _ _]. reflexivity.
  - destruct (N.eqb_spec c e) as [->|Hne]; intros [= <- _ _]; reflexivity.
Qed.

Lemma runs_NL_block (k : nat) (rest : text) :
  head rest <> Some NL ->
  runs (repeat NL (S k) ++ rest) = (NL, S k) :: runs rest.
Proof.
  intros Hrest. induction k as [|k IH].
  - change (repeat NL 1 ++ rest) with (NL :: rest). cbn [runs].
    destruct (runs rest) as [|[d n] r] eqn:E; [reflexivity|].
    apply runs_head in E.
    destruct (N.eqb_spec NL d) as [<-|Hne]; [contradiction | reflexivity].
  - change (repeat NL (S (S k)) ++ rest)
      with (NL :: (repeat NL (S k) ++ rest)).
    cbn [runs]. rewrite IH. rewrite N.eqb_refl. reflexivity.
Qed.

Lemma collapse_cons_other (c : char) (t : text) :
  c <> NL -> collapse_line_breaks (c :: t) = c :: collapse_line_breaks t.
Proof.
  intros Hc. unfold collapse_line_breaks. cbn [runs].
  assert (Hrun : forall n, collapse_run (c, n) = (c, n)).
  { intros n. unfold collapse_run. simpl.
    destruct (N.eqb_spec c NL); [contradiction | reflexivity]. }
  destruct (runs t) as [|[d n] r]; simpl.
  - rewrite Hrun. reflexivity.
  - destruct (N.eqb_spec c d) as [<-|Hne]; simpl.
    + rewrite !Hrun. reflexivity.
    + rewrite Hrun. reflexivity.
Qed.

Lemma collapse_NL_block (k : nat) (rest : text) :
  head rest <> Some NL ->
  collapse_line_breaks (repeat NL k ++ rest)
  = (if (3 <=? k)%nat then [NL; NL] else repeat NL k)
      ++ collapse_line_breaks rest.
Proof.
  intros Hrest. destruct k as [|k]; [reflexivity|].
  unfold collapse_line_breaks. rewrite runs_NL_block by assumption.
  cbn [map unruns flat_map]. unfold collapse_run. cbn [fst snd].
  rewrite N.eqb_refl. cbn [andb].
  destruct (3 <=? S k)%nat; reflexivity.
Qed.

(** The scan of [re.sub] computes the collapsing of the specification. *)
Lemma re_sub_newlines_collapse (t : text) :
  re_sub_newlines t = collapse_line_breaks t.
Proof.
  funelim (re_sub_newlines t).
  - reflexivity.
  - destruct (count_nl_split (c :: t')) as [Hs Hh].
    rewrite H. rewrite Hs at 3.
    rewrite collapse_NL_block by assumption.
    destruct (Nat.leb_spec 3 (count_nl (c :: t'))); [reflexivity | lia].
  - destruct (N.eq_dec c NL) as [->|Hne].
    + rewrite H.
      destruct (count_nl_split t') as [Hs Hh].
      assert (Hk : (count_nl t' < 2)%nat).
      { simpl in n. lia. }
      rewrite Hs at 2.
      change (NL :: repeat NL (count_nl t') ++ skipn (count_nl t') t')
        with (repeat NL (S (count_nl t')) ++ skipn (count_nl t') t').
      rewrite collapse_NL_block by assumption.
      rewrite Hs at 1. rewrite collapse_NL_block by assumption.
      destruct (Nat.leb_spec 3 (S (count_nl t'))); [lia|].
      destruct (Nat.leb_spec 3 (count_nl t')); [lia|].
      reflexivity.
    + rewrite H. symmetry. apply collapse_cons_other. exact Hne.
Qed.

Lemma lookup_map {A B} (f : A -> B) (l : list A) (i : nat) :
  map f l !! i = f <$> (l !! i).
Proof.
  revert i. induction l as [|a l IH]; intros [|i]; simpl; auto.
Qed.

Lemma replace_nbsp_normalized (u : text) :
  nbsp_normalized u (replace_nbsp u).
Proof.
  split.
  - apply length_map.
  - intros i c Hi. unfold replace_nbsp.
    rewrite lookup_map, Hi. reflexivity.
Qed.

Lemma normalized_replace_nbsp (u v : text) :
  nbsp_normalized u v -> v = replace_nbsp u.
Proof.
  intros [Hlen Hpt]. apply list_eq. intros i.
  unfold replace_nbsp. rewrite lookup_map.
  destruct (u !! i) as [c|] eqn:E; simpl.
  - apply Hpt. exact E.
  - apply lookup_ge_None. apply lookup_ge_None in E. lia.
Qed.

End CleanText.

(** C9.  For every input string, [clean_text] returns exactly the text
    obtained by replacing every maximal run of three or more line breaks
    by two line breaks, then every non-breaking space by a space, then
    removing the leading and trailing whitespace: a text is the result of
    [clean_text] if and only if it arises from the input by these three
    changes, so nothing else is changed. *)
Theorem clean_text_spec (t w : text) :
  clean_text t = w <->
  exists v, nbsp_normalized (collapse_line_breaks t) v /\ trimmed v w.
Proof.
  unfold clean_text. rewrite re_sub_newlines_collapse. split.
  - intros <-. exists (replace_nbsp (collapse_line_breaks t)). split.
    + apply replace_nbsp_normalized.
    + apply strip_trimmed.
  - intros (v & Hv & Hw).
    apply normalized_replace_nbsp in Hv. subst v.
    symmetry. apply trimmed_strip. exact Hw.
Qed.

(** ** The chunk bound *)

Section ChunkBound.

Import Splitter.

Variable chunk_size chunk_overlap : Z.
Hypothesis chunk_size_pos : 0 < chunk_size.

Lemma total_len_nil : total_len [] = 0.
Proof. reflexivity. Qed.

Lemma total_len_cons (x : text) (a : list text) :
  total_len (x :: a) = len x + total_len a.
Proof. reflexivity. Qed.

Lemma total_len_app (a b : list text) :
  total_len (a ++ b) = total_len a + total_len b.
Proof.
  induction a as [|x a IH]; [reflexivity|].
  rewrite <- app_comm_cons, !total_len_cons, IH. lia.
Qed.

Ltac total_len_simpl :=
  rewrite ?total_len_app, ?total_len_cons, ?total_len_nil in *.

Lemma total_len_nonneg (a : list text) : 0 <= total_len a.
Proof.
  induction a as [|x a IH]; total_len_simpl; [lia|]. unfold len. lia.
Qed.

Lemma len_join_empty (docs : list text) :
  len (join [] docs) = total_len docs.
Proof.
  induction docs as [|p ps IH]; [reflexivity|].
  destruct ps as [|q ps].
  - simpl. total_len_simpl. lia.
  - change (join [] (p :: q :: ps)) with (p ++ [] ++ join [] (q :: ps)).
    rewrite (total_len_cons p). rewrite <- IH. unfold len.
    rewrite app_nil_l, length_app. lia.
Qed.

Lemma join_docs_within (docs : list text) (d : text) :
  join_docs docs [] = Some d -> len d <= total_len docs.
Proof.
  unfold join_docs. intros H.
  assert (Hd : d = strip (join [] docs)).
  { destruct (strip (join [] docs)); [discriminate | congruence]. }
  subst d. rewrite <- len_join_empty. unfold len.
  pose proof (strip_length (join [] docs)). lia.
Qed.

Lemma pop_front_spec (_len : Z) (cur : list text) :
  let '(cur', total') :=
    pop_front chunk_size chunk_overlap 0 _len cur (total_len cur) in
  total' = total_len cur' /\ (total' + _len <= chunk_size \/ total' <= 0).
Proof.
  induction cur as [|c rest IH].
  - simpl. split; [reflexivity | right; lia].
  - cbn [pop_front].
    destruct ((chunk_overlap <? total_len (c :: rest))
              || ((chunk_size <? total_len (c :: rest) + _len
                                 + sep_if (0 <? len (c :: rest)) 0)
                  && (0 <? total_len (c :: rest)))) eqn:E.
    + replace (total_len (c :: rest)
               - (len c + sep_if (1 <? len (c :: rest)) 0))
        with (total_len rest).
      * exact IH.
      * unfold sep_if. total_len_simpl.
        destruct (1 <? len (c :: rest)); lia.
    + split; [reflexivity|].
      apply orb_false_iff in E. destruct E as [_ E].
      apply andb_false_iff in E. unfold sep_if in E.
      destruct E as [E|E].
      * left. destruct (0 <? len (c :: rest)); lia.
      * right. lia.
Qed.

Lemma merge_step_inv (st : merge_state) (d : text) :
  merge_inv chunk_size st -> within chunk_size d ->
  merge_inv chunk_size (merge_step chunk_size chunk_overlap [] st d).
Proof.
  intros (Ht & Hb & Hd) Hlen. unfold within in Hlen.
  unfold merge_step. change (len (@nil N)) with 0.
  assert (Hsep : forall b, sep_if b 0 = 0) by (intros []; reflexivity).
  rewrite !Hsep, !Z.add_0_r.
  destruct (chunk_size <? m_total st + len d) eqn:E.
  - destruct (m_current st) as [|c cur] eqn:Ec.
    + unfold merge_inv. cbn [m_total m_current m_docs]. rewrite Ec.
      total_len_simpl. repeat split; [lia | lia | exact Hd].
    + pose proof (pop_front_spec (len d) (c :: cur)) as Hp.
      rewrite Ht.
      destruct (pop_front chunk_size chunk_overlap 0 (len d) (c :: cur)
                          (total_len (c :: cur))) as [cur' total'].
      destruct Hp as (Hp1 & Hp2).
      unfold merge_inv. cbn [m_total m_current m_docs].
      pose proof (total_len_nonneg cur').
      total_len_simpl. repeat split; [lia | lia |].
      destruct (join_docs (c :: cur) []) as [doc|] eqn:Ej; [|exact Hd].
      apply Forall_app. split; [exact Hd|].
      constructor; [|constructor].
      apply join_docs_within in Ej. unfold within. total_len_simpl. lia.
  - unfold merge_inv. cbn [m_total m_current m_docs].
    total_len_simpl. repeat split; [lia | lia | exact Hd].
Qed.

Lemma merge_fold_inv (splits : list text) (st : merge_state) :
  merge_inv chunk_size st -> Forall (within chunk_size) splits ->
  merge_inv chunk_size
    (fold_left (merge_step chunk_size chunk_overlap []) splits st).
Proof.
  revert st. induction splits as [|d splits IH]; intros st Hst Hs.
  - exact Hst.
  - inversion Hs; subst. simpl. apply IH; [|assumption].
    apply merge_step_inv; assumption.
Qed.

(** Merging pieces that fit yields chunks that fit. *)
Lemma merge_splits_within (splits : list text) :
  Forall (within chunk_size) splits ->
  Forall (within chunk_size)
         (merge_splits chunk_size chunk_overlap splits []).
Proof.
  intros Hs. unfold merge_splits.
  assert (Hinit : merge_inv chunk_size (MergeSt [] [] 0)).
  { repeat split; [simpl; lia | constructor]. }
  pose proof (merge_fold_inv splits _ Hinit Hs) as (Ht & Hb & Hd).
  destruct (join_docs _ []) as [doc|] eqn:Ej; [|exact Hd].
  apply Forall_app. split; [exact Hd|].
  constructor; [|constructor].
  apply join_docs_within in Ej. unfold within. lia.
Qed.

Lemma flush_good_within (good : list text) :
  Forall (within chunk_size) good ->
  Forall (within chunk_size) (flush_good chunk_size chunk_overlap good).
Proof.
  intros H. destruct good; [constructor|].
  now apply merge_splits_within.
Qed.

Lemma chars_within (t : text) :
  Forall (within chunk_size) (map (fun c => [c]) t).
Proof.
  induction t as [|c t IH]; simpl; constructor; [|exact IH].
  unfold within, len. simpl. lia.
Qed.

(** The hard split yields chunks that fit. *)
Lemma hard_split_within (s : text) :
  Forall (within chunk_size) (hard_split chunk_size chunk_overlap s).
Proof.
  unfold hard_split. destruct (Z.leb_spec (len s) chunk_size).
  - constructor; [exact H | constructor].
  - apply merge_splits_within, chars_within.
Qed.

Lemma assemble_within (recur : option (text -> list text))
      (splits good : list text) :
  match recur with
  | Some f => forall s, Forall (within chunk_size) (f s)
  | None => True
  end ->
  Forall (within chunk_size) good ->
  Forall (within chunk_size)
         (assemble chunk_size chunk_overlap recur splits good).
Proof.
  revert good. induction splits as [|s rest IH]; intros good Hrec Hgood.
  - now apply flush_good_within.
  - cbn [assemble].
    destruct (Z.ltb_spec (len s) chunk_size).
    + apply IH; [exact Hrec|]. apply Forall_app. split; [exact Hgood|].
      constructor; [unfold within; lia | constructor].
    + apply Forall_app. split; [now apply flush_good_within|].
      apply Forall_app. split.
      * destruct recur as [f|]; [apply Hrec | apply hard_split_within].
      * apply IH; [exact Hrec | constructor].
Qed.

(** Every chunk fits in the maximum, whatever the separators. *)
Lemma split_rec_within (seps : list text) (dflt t : text) :
  Forall (within chunk_size) (split_rec chunk_size chunk_overlap seps dflt t).
Proof.
  revert t. induction seps as [|s rest IH]; intros t.
  - cbn [split_rec]. apply assemble_within; [exact I | constructor].
  - cbn [split_rec]. destruct s as [|c s].
    + apply assemble_within; [exact I | constructor].
    + destruct (contains (c :: s) t); [|apply IH].
      apply assemble_within; [|constructor].
      destruct rest; [exact I|]. intros s'. apply IH.
Qed.

Lemma split_documents_within (seps : list text) (docs : list Document) :
  Forall (fun d => within chunk_size (page_content d))
         (split_documents chunk_size chunk_overlap seps docs).
Proof.
  unfold split_documents.
  induction docs as [|d docs IH]; [constructor|].
  cbn [flat_map]. apply Forall_app. split; [|exact IH].
  pose proof (split_rec_within seps (List.last seps []) (page_content d))
    as H.
  unfold split_text. induction H; constructor; auto.
Qed.

End ChunkBound.

(** What the constructor of the splitter accepts, and what it builds. *)
Lemma splitter_accepts (chunk_size chunk_overlap : Z) (seps : list text) :
  match Splitter.RecursiveCharacterTextSplitter chunk_size chunk_overlap
          seps with
  | Ok ts =>
      ts = Splitter.mkSplitter chunk_size chunk_overlap seps
      /\ 0 < chunk_size /\ 0 <= chunk_overlap <= chunk_size
  | Raise e =>
      exn_cls e = ValueError
      /\ ~ (0 < chunk_size /\ 0 <= chunk_overlap <= chunk_size)
  end.
Proof.
  unfold Splitter.RecursiveCharacterTextSplitter.
  destruct (Z.leb_spec chunk_size 0); [split; [reflexivity | lia]|].
  destruct (Z.ltb_spec chunk_overlap 0); [split; [reflexivity | lia]|].
  destruct (Z.ltb_spec chunk_size chunk_overlap);
    [split; [reflexivity | lia]|].
  split; [reflexivity | lia].
Qed.

(** C7.  For every source file, whatever the loader returns for it and
    whatever the separators are, [process_file] either returns chunks,
    every one of them at most [chunk_size] long, or passes on the
    [ValueError] of the splitter's constructor, which happens only for a
    configuration whose chunk size is not positive or whose overlap is
    not between 0 and the chunk size. *)
Theorem chunk_bound (cfg : Ingest.IngestionConfig) (env : Ingest.Backend)
        (f : Ingest.SourceFile) (st : Ingest.State) :
  exists r st',
    Ingest.process_file cfg env f st = (r, st')
    /\ match r with
       | Ok docs =>
           Forall (fun d => len (page_content d) <= Ingest.chunk_size cfg)
                  docs
       | Raise e =>
           exn_cls e = ValueError
           /\ ~ (0 < Ingest.chunk_size cfg
                 /\ 0 <= Ingest.chunk_overlap cfg <= Ingest.chunk_size cfg)
       end.
Proof.
  unfold Ingest.process_file.
  destruct (Ingest.pdf_load env f) as [raw_docs|e].
  - pose proof (splitter_accepts (Ingest.chunk_size cfg)
                  (Ingest.chunk_overlap cfg) (Ingest.separators cfg)) as Hs.
    unfold mbind, M_bind, bind, lift, ret.
    destruct (Splitter.RecursiveCharacterTextSplitter _ _ _) as [ts|e].
    + destruct Hs as (-> & Hpos & _). eexists _, _. split; [reflexivity|].
      unfold Ingest.split_documents. cbn.
      apply (split_documents_within _ _ Hpos).
    + eexists _, _. split; [reflexivity | exact Hs].
  - eexists _, _. split; [reflexivity | constructor].
Qed.

(** ** The ingestion loop *)

Section Ingestion.

Import Ingest.

Variable cfg : IngestionConfig.
Variable env : Backend.

Ltac unfold_M :=
  unfold mbind, M_bind, bind, mret, M_ret, ret, emit, is_processed,
    mark_processed, _save_registry, add_documents, process_file in *.

Lemma process_file_unfold (f : SourceFile) (st : State) :
  process_file cfg env f st =
  (process_result cfg env f, log st (load_log env f)).
Proof.
  unfold process_file, process_result, load_log, splitter, log.
  unfold_M. unfold lift.
  destruct (pdf_load env f) as [raw|e]; cbn.
  - rewrite app_nil_r. destruct st.
    destruct (Splitter.RecursiveCharacterTextSplitter _ _ _); reflexivity.
  - reflexivity.
Qed.

(** What the loop body does to the state, case by case. *)
Lemma ingest_file_unfold (f : SourceFile) (st : State) :
  ingest_file cfg env f st =
  match calculate_file_hash f with
  | Raise e => (Raise e, st)
  | Ok file_hash =>
      if bool_decide (registry st !! name f = Some file_hash) then
        (Ok 0, mkState (registry st) (vectorstore st)
                       (trace st ++ [LogInfo (MsgSkipping (name f))]))
      else
        let tr :=
          trace st ++ LogInfo (MsgProcessing (name f)) :: load_log env f in
        match process_result cfg env f with
        | Raise e => (Raise e, mkState (registry st) (vectorstore st) tr)
        | Ok [] =>
            (Ok 0, mkState (registry st) (vectorstore st)
                           (tr ++ [LogWarning (MsgNoContent (name f))]))
        | Ok docs =>
            match add_fault env tr docs with
            | Some e =>
                (Raise e, mkState (registry st) (vectorstore st)
                                  (tr ++ [IndexAddRaised docs e]))
            | None =>
                let reg := <[name f := file_hash]> (registry st) in
                (Ok (len docs),
                 mkState reg (vectorstore st ++ docs)
                         (tr ++ [IndexAdd docs; RegistrySaved reg;
                                 LogInfo (MsgAdded (len docs) (name f))]))
            end
        end
  end.
Proof.
  unfold ingest_file. unfold mbind, M_bind, bind, lift.
  destruct (calculate_file_hash f) as [file_hash|e]; [|reflexivity].
  unfold is_processed. cbn.
  destruct (bool_decide _); [reflexivity|].
  rewrite process_file_unfold. unfold log. cbn.
  destruct (process_result cfg env f) as [[|d docs]|e]; cbn.
  - unfold ret. rewrite <- !app_assoc. reflexivity.
  - unfold add_documents. rewrite <- !app_assoc. cbn.
    destruct (add_fault env _ (d :: docs)); cbn;
      do 2 (unfold_M; cbn);
      repeat (rewrite <- app_assoc || rewrite <- app_comm_cons); reflexivity.
  - rewrite <- ?app_assoc. reflexivity.
Qed.

(** For a file that can be read, being current is having its fingerprint
    in the registry. *)
Lemma current_iff (reg : gmap text text) (f : SourceFile) (file_hash : text) :
  calculate_file_hash f = Ok file_hash ->
  current reg f <-> reg !! name f = Some file_hash.
Proof.
  intros Hh. unfold current. split.
  - intros (h & Hh' & Hr). congruence.
  - intros Hr. eauto.
Qed.

Lemma chunks_of_result (f : SourceFile) (docs : list Document) :
  process_result cfg env f = Ok docs -> chunks cfg env f = docs.
Proof. unfold chunks. intros ->. reflexivity. Qed.

Lemma load_log_quiet (f : SourceFile) :
  insertions (load_log env f) = []
  /\ processed_files (load_log env f) = []
  /\ filter (fun ev => is_registry_save ev) (load_log env f) = [].
Proof.
  unfold load_log. destruct (pdf_load env f); repeat split; reflexivity.
Qed.

Lemma insertions_app (a b : list event) :
  insertions (a ++ b) = insertions a ++ insertions b.
Proof. apply filter_app. Qed.

Lemma insertions_cons (ev : event) (l : list event) :
  insertions (ev :: l)
  = (if is_insertion ev then [ev] else []) ++ insertions l.
Proof.
  unfold insertions. rewrite filter_cons.
  destruct (is_insertion ev); reflexivity.
Qed.

Lemma insertions_nil : insertions [] = [].
Proof. reflexivity. Qed.

Ltac insertions_simpl :=
  rewrite ?insertions_app, ?insertions_cons, ?insertions_nil;
  cbn [is_insertion app].

Lemma processed_files_app (a b : list event) :
  processed_files (a ++ b) = processed_files a ++ processed_files b.
Proof.
  induction a as [|ev a IH]; [reflexivity|].
  destruct ev as [m| | | | |]; try exact IH.
  destruct m; try exact IH. simpl. f_equal. exact IH.
Qed.

Lemma ingest_files_app (pre post : list SourceFile) (n : Z) (st : State) :
  ingest_files cfg env (pre ++ post) n st =
  match ingest_files cfg env pre n st with
  | (Ok n1, st1) => ingest_files cfg env post n1 st1
  | (Raise e, st1) => (Raise e, st1)
  end.
Proof.
  revert n st. induction pre as [|f pre IH]; intros n st; [reflexivity|].
  cbn [app ingest_files]. unfold mbind, M_bind, bind.
  destruct (ingest_file cfg env f st) as [[k|e] st']; [apply IH | reflexivity].
Qed.

#[local] Abbreviation settled := (Ingest.settled cfg env).

Lemma ingest_file_settled (f : SourceFile) (st : State) :
  settled (registry st) f ->
  exists tr, ingest_file cfg env f st = (Ok 0, log st tr)
             /\ insertions tr = []
             /\ (current (registry st) f -> processed_files tr = []).
Proof.
  intros Hs. rewrite ingest_file_unfold.
  assert (Hread : exists h, calculate_file_hash f = Ok h).
  { destruct Hs as [(h & Hh & _)|[Hh _]]; [eauto | exact Hh]. }
  destruct Hread as (h & Hh). rewrite Hh.
  case_bool_decide as Hc.
  - eexists. split; [reflexivity|]. split; reflexivity.
  - assert (Hnc : ~ current (registry st) f)
      by (rewrite (current_iff _ _ _ Hh); exact Hc).
    destruct Hs as [Hs|[_ Hs]]; [contradiction|]. rewrite Hs. cbn zeta.
    exists (LogInfo (MsgProcessing (name f)) :: load_log env f
            ++ [LogWarning (MsgNoContent (name f))]).
    split; [|split].
    + unfold log. rewrite <- app_assoc. reflexivity.
    + insertions_simpl. rewrite insertions_app.
      destruct (load_log_quiet f) as (-> & _). reflexivity.
    + intros Hc'. contradiction.
Qed.

(** Over settled files the loop inserts nothing and changes neither the
    registry nor the index. *)
Lemma ingest_files_settled (fs : list SourceFile) (n : Z) (st : State) :
  Forall (settled (registry st)) fs ->
  exists tr, ingest_files cfg env fs n st = (Ok n, log st tr)
             /\ insertions tr = []
             /\ (Forall (current (registry st)) fs -> processed_files tr = []).
Proof.
  revert n st. induction fs as [|f fs IH]; intros n st Hall.
  - exists []. unfold log. rewrite app_nil_r. destruct st.
    split; [reflexivity|]. split; reflexivity.
  - inversion Hall as [|? ? Hf Hfs]; subst.
    destruct (ingest_file_settled f st Hf) as (tr1 & E1 & I1 & P1).
    destruct (IH (n + 0) (log st tr1) Hfs) as (tr2 & E2 & I2 & P2).
    exists (tr1 ++ tr2). cbn [ingest_files]. unfold mbind, M_bind, bind.
    rewrite E1, E2. split; [|split].
    + unfold log. cbn. rewrite Z.add_0_r, app_assoc. reflexivity.
    + rewrite insertions_app, I1, I2. reflexivity.
    + intros Hcur. inversion Hcur; subst.
      rewrite processed_files_app, P1, P2 by assumption. reflexivity.
Qed.

(** The loop body touches the registry at the file's own name only, and
    leaves the file settled when it returns. *)
Lemma ingest_file_registry (f : SourceFile) (st : State) r st' :
  ingest_file cfg env f st = (r, st') ->
  (forall key, key <> name f -> registry st' !! key = registry st !! key)
  /\ (forall k, r = Ok k -> settled (registry st') f).
Proof.
  rewrite ingest_file_unfold. unfold Ingest.settled.
  destruct (calculate_file_hash f) as [h|e] eqn:Hh.
  2:{ intros [= <- <-]. split; [reflexivity | discriminate]. }
  case_bool_decide as Hc.
  - intros [= <- <-]. cbn. split; [reflexivity|].
    intros; left. apply (current_iff _ _ _ Hh). exact Hc.
  - cbn zeta. destruct (process_result cfg env f) as [[|d docs]|e] eqn:Ech.
    + intros [= <- <-]. cbn. split; [reflexivity|].
      intros; right. eauto.
    + destruct (add_fault env _ _).
      * intros [= <- <-]. cbn. split; [reflexivity | discriminate].
      * intros [= <- <-]. cbn. split.
        -- intros key Hk. apply lookup_insert_ne. congruence.
        -- intros _ _. left. apply (current_iff _ _ _ Hh).
           apply lookup_insert_eq.
    + intros [= <- <-]. cbn. split; [reflexivity | discriminate].
Qed.

Lemma ingest_files_registry (fs : list SourceFile) (n : Z) (st : State) r st' :
  ingest_files cfg env fs n st = (r, st') ->
  forall key, key ∉ map name fs -> registry st' !! key = registry st !! key.
Proof.
  revert n st. induction fs as [|f fs IH]; intros n st.
  - intros [= <- <-]. reflexivity.
  - cbn [ingest_files]. unfold mbind, M_bind, bind.
    destruct (ingest_file cfg env f st) as [[k|e] st1] eqn:E1.
    + intros E2 key Hk. cbn [map] in Hk.
      apply not_elem_of_cons in Hk as [Hk1 Hk2].
      rewrite (IH _ _ E2 key Hk2).
      apply (ingest_file_registry _ _ _ _ E1). exact Hk1.
    + intros [= <- <-] key Hk. cbn [map] in Hk.
      apply not_elem_of_cons in Hk as [Hk1 Hk2].
      apply (ingest_file_registry _ _ _ _ E1). exact Hk1.
Qed.

(** After a loop that returned, over files with pairwise distinct names,
    every file is settled. *)
Lemma ingest_files_all_settled (fs : list SourceFile) (n m : Z)
      (st st' : State) :
  NoDup (map name fs) ->
  ingest_files cfg env fs n st = (Ok m, st') ->
  Forall (settled (registry st')) fs.
Proof.
  revert n st. induction fs as [|f fs IH]; intros n st Hnd; [constructor|].
  cbn [map] in Hnd. apply NoDup_cons in Hnd as [Hnotin Hnd].
  cbn [ingest_files]. unfold mbind, M_bind, bind.
  destruct (ingest_file cfg env f st) as [[k|e] st1] eqn:E1; [|discriminate].
  intros E2. constructor; [|exact (IH _ _ Hnd E2)].
  destruct (ingest_file_registry _ _ _ _ E1) as [_ Hs].
  specialize (Hs k eq_refl). unfold Ingest.settled, current in *.
  destruct Hs as [(h & Hh & Hs)|Hs]; [left | right; exact Hs].
  exists h. split; [exact Hh|].
  rewrite (ingest_files_registry _ _ _ _ _ E2 _ Hnotin). exact Hs.
Qed.

(** [validate] only reads the index and writes to the log. *)
Lemma validate_frame (st : State) :
  exists r tr, validate env st = (r, log st tr)
               /\ insertions tr = [] /\ processed_files tr = [].
Proof.
  unfold validate, query. unfold_M. cbn.
  destruct (similarity_search env _ _ _) as [[|top rest]|e]; cbn.
  - eexists _, [_; _]. unfold log. cbn. rewrite <- app_assoc.
    split; [reflexivity|]. split; reflexivity.
  - eexists _, [_; _]. unfold log. cbn. rewrite <- app_assoc.
    split; [reflexivity|]. split; reflexivity.
  - eexists _, [_]. split; [reflexivity|]. split; reflexivity.
Qed.

Lemma run_unfold (fs : list SourceFile) (st : State) :
  run cfg env (Some fs) st =
  match ingest_files cfg env fs 0
          (log st [LogInfo MsgStarting;
                   LogInfo (MsgFound (len fs) (source_dir cfg))]) with
  | (Ok n, st1) =>
      validate env
        (log st1 [LogInfo (if 0 <? n then MsgComplete n else MsgNothingNew)])
  | (Raise e, st1) => (Raise e, st1)
  end.
Proof.
  unfold run. unfold mbind, M_bind, bind, emit, log. cbn.
  rewrite <- app_assoc. cbn.
  destruct (ingest_files cfg env fs 0 _) as [[n|e] st1]; [|reflexivity].
  destruct (0 <? n); reflexivity.
Qed.

(** What [run] adds around the loop: log records, and no change of the
    registry or of the index. *)
Lemma run_frame (fs : list SourceFile) (st : State) :
  exists r1 st1 r st' tr0 tr',
    ingest_files cfg env fs 0 (log st tr0) = (r1, st1)
    /\ run cfg env (Some fs) st = (r, st')
    /\ st' = log st1 tr'
    /\ (forall e, r1 = Raise e -> r = Raise e)
    /\ insertions tr0 = [] /\ processed_files tr0 = []
    /\ insertions tr' = [] /\ processed_files tr' = [].
Proof.
  rewrite run_unfold.
  destruct (ingest_files cfg env fs 0 _) as [[n|e] st1] eqn:E.
  - destruct (validate_frame
                (log st1 [LogInfo (if 0 <? n then MsgComplete n
                                   else MsgNothingNew)]))
      as (r & tr & Ev & Iv & Pv).
    eexists _, _, r, _, _, (_ :: tr). split; [exact E|].
    split; [exact Ev|]. split.
    { unfold log. cbn. rewrite <- app_assoc. reflexivity. }
    split; [discriminate|].
    repeat split; try reflexivity.
    + cbn. destruct (0 <? n); exact Iv.
    + cbn. destruct (0 <? n); exact Pv.
  - eexists _, _, _, _, _, []. split; [exact E|].
    split; [reflexivity|]. split.
    { unfold log. rewrite app_nil_r. destruct st1. reflexivity. }
    split; [intros e' [= ->]; reflexivity|].
    repeat split; reflexivity.
Qed.

(** C4 (as amended).  Over a corpus whose file names are pairwise
    distinct, when a run of the pipeline has returned, a second run over
    the unchanged corpus makes no insertion into the index: it only adds
    to the log, and leaves the registry and the index as they are. *)
Theorem second_run_inserts_nothing (fs : list SourceFile) (st st1 : State) :
  NoDup (map name fs) ->
  run cfg env (Some fs) st = (Ok tt, st1) ->
  exists r tr, run cfg env (Some fs) st1 = (r, log st1 tr)
               /\ insertions tr = [].
Proof.
  intros Hnd Hrun.
  destruct (run_frame fs st)
    as (r1 & sta & r & st' & tr0 & tr' & E1 & Er & -> & Hr & _).
  rewrite Hrun in Er. injection Er as <- ->.
  destruct r1 as [n|e]; [|discriminate (Hr e eq_refl)].
  pose proof (ingest_files_all_settled _ _ _ _ _ Hnd E1) as Hset.
  destruct (run_frame fs (log sta tr'))
    as (r2 & stb & r & st' & tr2 & tr3 & E2 & Er & -> & _ & I2 & _ & I3 & _).
  destruct (ingest_files_settled fs 0 (log (log sta tr') tr2) Hset)
    as (tr & E & I & _).
  rewrite E in E2. injection E2 as <- <-.
  exists r, (tr2 ++ tr ++ tr3). split.
  - rewrite Er. unfold log. cbn. rewrite <- !app_assoc. reflexivity.
  - rewrite !insertions_app, I2, I, I3. reflexivity.
Qed.

(** The changed file and the files behind it in the scan. *)
Lemma changed_file_then_rest (f' : SourceFile) (post : list SourceFile)
      (n : Z) (st : State) (h' : text) :
  calculate_file_hash f' = Ok h' ->
  registry st !! name f' <> Some h' ->
  Forall (current (registry st)) post ->
  name f' ∉ map name post ->
  exists r st' tr,
    ingest_files cfg env (f' :: post) n st = (r, st')
    /\ trace st' = trace st ++ tr
    /\ processed_files tr = [name f']
    /\ reingests cfg env f' h' st r st' tr.
Proof.
  intros Hh Hnc Hpost Hname. cbn [ingest_files]. unfold mbind, M_bind, bind.
  rewrite ingest_file_unfold, Hh.
  case_bool_decide as Hc; [contradiction|]. cbn zeta.
  destruct (load_log_quiet f') as (Il & Pl & _).
  unfold reingests.
  destruct (process_result cfg env f') as [[|d docs]|e] eqn:Ech.
  - match goal with |- context [ingest_files _ _ post ?m ?s] =>
      destruct (ingest_files_settled post m s) as (tr & E & I & P)
    end.
    { cbn. eapply Forall_impl; [exact Hpost|]. intros g Hg. left. exact Hg. }
    rewrite E. eexists _, _, _. split; [reflexivity|]. split.
    { unfold log. cbn. rewrite <- !app_assoc. reflexivity. }
    split.
    + rewrite !processed_files_app. cbn. rewrite Pl, (P Hpost). reflexivity.
    + split; [|split; reflexivity].
      insertions_simpl. rewrite Il, I. reflexivity.
  - destruct (add_fault env _ _) as [e|].
    + eexists _, _, _. split; [reflexivity|]. split.
      { cbn. rewrite <- !app_assoc. reflexivity. }
      split.
      * rewrite !processed_files_app. cbn. rewrite Pl. reflexivity.
      * left. exists e. split; [reflexivity|]. split; [|split; reflexivity].
        insertions_simpl. rewrite Il. reflexivity.
    + assert (Hpost' : Forall (current (<[name f' := h']> (registry st))) post).
      { apply Forall_forall. intros g Hg.
        rewrite Forall_forall in Hpost. destruct (Hpost g Hg) as (hg & Hg1 & Hg2).
        exists hg. split; [exact Hg1|].
        rewrite lookup_insert_ne; [exact Hg2|].
        intros Heq. apply Hname. rewrite Heq.
        apply list_elem_of_In, in_map, list_elem_of_In. exact Hg. }
      match goal with |- context [ingest_files _ _ post ?m ?s] =>
        destruct (ingest_files_settled post m s) as (tr & E & I & P)
      end.
      { cbn. eapply Forall_impl; [exact Hpost'|]. intros g Hg. left. exact Hg. }
      rewrite E. eexists _, _, _. split; [reflexivity|]. split.
      { unfold log. cbn. rewrite <- !app_assoc. reflexivity. }
      split.
      * rewrite !processed_files_app. cbn. rewrite Pl, (P Hpost').
        reflexivity.
      * right. split; [|split; reflexivity].
        insertions_simpl. rewrite Il, I. reflexivity.
  - eexists _, _, _. split; [reflexivity|]. split.
    { cbn. reflexivity. }
    split.
    + cbn. rewrite Pl. reflexivity.
    + split; [reflexivity|]. split; [|split; reflexivity].
      insertions_simpl. exact Il.
Qed.

(** C3 (as amended).  File identity is the file name, and a change is
    seen through the fingerprint only.  Over a corpus whose file names are
    pairwise distinct and whose files are all registered with their
    current fingerprint, after the content of one file has changed the
    next run skips every other file.  When the fingerprint of the changed
    file differs from the registered one, the run processes that file and
    no other: it makes one insertion, of that file's chunks, and when the
    insertion returns it registers the new fingerprint and the index has
    the chunks at its end; it makes no insertion only when the file
    yields no chunk or the splitter cannot be built, and it leaves
    registry and index as they were in these cases and when the insertion
    raises.  When the fingerprint is the same, the changed file is skipped
    like the others. *)
Theorem changed_file_reingested (pre post : list SourceFile)
        (f f' : SourceFile) (st : State) (h h' : text) :
  NoDup (map name (pre ++ f :: post)) ->
  Forall (current (registry st)) (pre ++ f :: post) ->
  file_path f' = file_path f ->
  calculate_file_hash f = Ok h ->
  calculate_file_hash f' = Ok h' ->
  exists r st' tr,
    run cfg env (Some (pre ++ f' :: post)) st = (r, st')
    /\ trace st' = trace st ++ tr
    /\ if bool_decide (h' = h)
       then processed_files tr = [] /\ insertions tr = []
            /\ registry st' = registry st
            /\ vectorstore st' = vectorstore st
       else processed_files tr = [name f']
            /\ reingests cfg env f' h' st r st' tr.
Proof.
  intros Hnd Hcur Hpath Hh Hh'.
  assert (Hname : name f' = name f) by (unfold name; congruence).
  rewrite map_app in Hnd. cbn [map] in Hnd.
  apply NoDup_app in Hnd as (_ & _ & Hnd).
  apply NoDup_cons in Hnd as [Hnotin _].
  apply Forall_app in Hcur as [Hpre Hfpost].
  inversion Hfpost as [|? ? Hf Hpost]; subst.
  apply (current_iff _ _ _ Hh) in Hf.
  destruct (run_frame (pre ++ f' :: post) st)
    as (r1 & st1 & r & st' & tr0 & tr' & E1 & Er & -> & Hr & I0 & P0 & I' & P').
  case_bool_decide as Heq.
  - subst h'.
    assert (Hall : Forall (current (registry st)) (pre ++ f' :: post)).
    { apply Forall_app. split; [exact Hpre|]. constructor; [|exact Hpost].
      apply (current_iff _ _ _ Hh'). rewrite Hname. exact Hf. }
    destruct (ingest_files_settled (pre ++ f' :: post) 0 (log st tr0))
      as (tr1 & E & I1 & P1).
    { cbn. eapply Forall_impl; [exact Hall|]. intros g Hg. left. exact Hg. }
    rewrite E in E1. injection E1 as <- <-.
    exists r, (log (log (log st tr0) tr1) tr'), (tr0 ++ tr1 ++ tr').
    split; [exact Er|]. split.
    { cbn. rewrite <- !app_assoc. reflexivity. }
    split; [rewrite !processed_files_app, P0, (P1 Hall), P'; reflexivity|].
    split; [rewrite !insertions_app, I0, I1, I'; reflexivity|].
    split; reflexivity.
  - rewrite ingest_files_app in E1.
    destruct (ingest_files_settled pre 0 (log st tr0))
      as (tr1 & Epre & I1 & P1).
    { cbn. eapply Forall_impl; [exact Hpre|]. intros g Hg. left. exact Hg. }
    rewrite Epre in E1.
    destruct (changed_file_then_rest f' post 0 (log (log st tr0) tr1) h')
      as (r2 & st2 & tr2 & E2 & T2 & P2 & I2).
    { exact Hh'. }
    { cbn. rewrite Hname, Hf. congruence. }
    { exact Hpost. }
    { rewrite Hname. exact Hnotin. }
    rewrite E2 in E1. injection E1 as <- <-.
    exists r, (log st2 tr'), (tr0 ++ tr1 ++ tr2 ++ tr'). split; [exact Er|].
    split.
    { cbn. rewrite T2. cbn. rewrite <- !app_assoc. reflexivity. }
    split.
    { rewrite !processed_files_app, P0, (P1 Hpre), P2, P'. reflexivity. }
    unfold reingests in *. cbn [registry vectorstore log] in *.
    rewrite !insertions_app, I0, I1, I', app_nil_r. cbn [app].
    destruct (process_result cfg env f') as [[|d docs]|e].
    + exact I2.
    + destruct I2 as [(e & -> & I2)|I2]; [left | right; exact I2].
      exists e. split; [apply Hr; reflexivity | exact I2].
    + destruct I2 as (-> & I2). split; [apply Hr; reflexivity | exact I2].
Qed.


(** C8 (as amended).  When the loader raises for a file the loop reaches
    and has fingerprinted, the failure is logged as an error, the file
    yields no chunk and is logged as having no content, neither the
    registry nor the index changes, the chunk count is not increased, and
    the loop goes on with the remaining files exactly as it would from
    that state: this failure does not abort the run. *)
Theorem load_failure_skips_file (pre post : list SourceFile)
        (f : SourceFile) (file_hash : text) (e : exn) (n n1 : Z)
        (st st1 : State) :
  calculate_file_hash f = Ok file_hash ->
  pdf_load env f = Raise e ->
  ingest_files cfg env pre n st = (Ok n1, st1) ->
  ~ current (registry st1) f ->
  ingest_file cfg env f st1
  = (Ok 0, log st1 [LogInfo (MsgProcessing (name f));
                    LogError (MsgLoadFailed (file_path f) e);
                    LogWarning (MsgNoContent (name f))])
  /\ ingest_files cfg env (pre ++ f :: post) n st
     = ingest_files cfg env post n1
         (log st1 [LogInfo (MsgProcessing (name f));
                   LogError (MsgLoadFailed (file_path f) e);
                   LogWarning (MsgNoContent (name f))]).
Proof.
  intros Hh Hload Hpre Hnc.
  assert (Hf : ingest_file cfg env f st1
               = (Ok 0, log st1 [LogInfo (MsgProcessing (name f));
                                 LogError (MsgLoadFailed (file_path f) e);
                                 LogWarning (MsgNoContent (name f))])).
  { rewrite ingest_file_unfold, Hh.
    rewrite (current_iff _ _ _ Hh) in Hnc.
    case_bool_decide as Hc; [contradiction|].
    unfold process_result, load_log. rewrite Hload. cbn.
    unfold log. rewrite <- app_assoc. reflexivity. }
  split; [exact Hf|].
  rewrite ingest_files_app, Hpre. cbn [ingest_files].
  unfold mbind, M_bind, bind. rewrite Hf, Z.add_0_r. reflexivity.
Qed.

Lemma cleaned_docs_too_short (path : text) (pages : list Document) :
  Forall (fun d => too_short d = true) pages -> cleaned_docs path pages = [].
Proof.
  unfold cleaned_docs. induction 1 as [|d pages Hd _ IH]; [reflexivity|].
  rewrite filter_cons, Hd. exact IH.
Qed.

Lemma split_no_documents (ts : Splitter.TextSplitter) :
  split_documents ts [] = [].
Proof. reflexivity. Qed.

(** C2 (as amended).  When every page of a file is below the minimum
    content threshold, the loop body (for a file it can fingerprint, with
    a configuration the splitter accepts) produces no chunk for it, logs
    that it has no valid content, makes no insertion and leaves the
    registry as it is: the file is not marked as processed, and the next
    run reaches it and processes it again in the same way. *)
Theorem no_content_not_marked (f : SourceFile) (pages : list Document)
        (st : State) (file_hash : text) (ts : Splitter.TextSplitter) :
  calculate_file_hash f = Ok file_hash ->
  splitter cfg = Ok ts ->
  pdf_load env f = Ok pages ->
  Forall (fun d => too_short d = true) pages ->
  ~ current (registry st) f ->
  let events := [LogInfo (MsgProcessing (name f));
                 LogWarning (MsgNoContent (name f))] in
  chunks cfg env f = []
  /\ ingest_file cfg env f st = (Ok 0, log st events)
  /\ ~ current (registry (log st events)) f
  /\ ingest_file cfg env f (log st events)
     = (Ok 0, log (log st events) events).
Proof.
  intros Hh Hts Hload Hshort Hnc events.
  assert (Hres : process_result cfg env f = Ok []).
  { unfold process_result.
    rewrite Hload, Hts, cleaned_docs_too_short by assumption.
    reflexivity. }
  assert (Hstep : forall s, ~ current (registry s) f ->
                    ingest_file cfg env f s = (Ok 0, log s events)).
  { intros s Hs. rewrite ingest_file_unfold, Hh.
    rewrite (current_iff _ _ _ Hh) in Hs.
    case_bool_decide as Hc; [contradiction|].
    rewrite Hres. unfold load_log. rewrite Hload. cbn.
    unfold log. rewrite <- app_assoc. reflexivity. }
  split; [apply chunks_of_result; exact Hres|].
  split; [apply Hstep; exact Hnc|].
  split; [exact Hnc|]. apply Hstep. exact Hnc.
Qed.

End Ingestion.

(** ** Loading the registry *)

(** C6 (as amended).  When the registry file is absent, or is there and
    its content is rejected by the JSON decoder, loading the registry
    returns the empty registry and does not raise. *)
Theorem load_registry_tolerant (json_loads : text -> res Ingest.json)
        (p : Ingest.registry_path) :
  (p = Ingest.Absent
   \/ exists s e, p = Ingest.Contents s /\ json_loads s = Raise e
                  /\ is_JSONDecodeError e = true) ->
  Ingest._load_registry json_loads p = Ok (Ingest.JObj []).
Proof.
  intros [-> | (s & e & -> & Hs & He)]; [reflexivity|].
  unfold Ingest._load_registry. cbn. rewrite Hs, He. reflexivity.
Qed.

(** ** Answering *)

Section Answering.

Import Retrieval.

Variable con : Console.
Variable env : Env.

(** In this section no write to the console raises. *)
Hypothesis Hcon : console_ok con.

Ltac unfold_M :=
  unfold mbind, M_bind, bind, mret, M_ret, ret, raise, try_except, print,
    print_exc, emit, call, check, attr, get_globals, set_globals in *.

Ltac quiet :=
  cbn;
  repeat (match goal with
          | |- context [stdout_fault con ?t ?s] => rewrite (proj1 Hcon t s)
          | |- context [stderr_fault con ?t ?e] => rewrite (proj2 Hcon t e)
          end; cbn).

Lemma print_quiet (s : text) (st : State) :
  print con s st = (Ok tt, mkState (globals st) (trace st ++ [Print s])).
Proof. unfold print, emit. rewrite (proj1 Hcon). reflexivity. Qed.

Lemma print_exc_quiet (e : exn) (st : State) :
  print_exc con e st
  = (Ok tt, mkState (globals st) (trace st ++ [PrintTraceback e])).
Proof. unfold print_exc, emit. rewrite (proj2 Hcon). reflexivity. Qed.

Lemma invocations_app (a b : list event) :
  invocations (a ++ b) = invocations a ++ invocations b.
Proof.
  induction a as [|ev a IH]; [reflexivity|].
  destruct ev; cbn; rewrite IH; reflexivity.
Qed.

(** The [try] block with the three globals set. *)
Lemma answer_body_ready (q : text) (st : State) vs m p :
  globals st = mkGlobals (Some vs) (Some m) (Some p) ->
  answer_body con q st =
  let tr := trace st ++ [Print (lit "Retrieving documents..."); Search q 4] in
  match vs_similarity_search vs q 4 with
  | Raise e => (Raise e, mkState (globals st) tr)
  | Ok docs =>
      let prompt := format p (join [NL; NL] (map page_content docs)) q in
      let tr := tr ++ [Print (lit "Generating answer..."); Invoke prompt] in
      match invoke_content m prompt with
      | Raise e => (Raise e, mkState (globals st) tr)
      | Ok t => (Ok (mkResponse t docs), mkState (globals st) tr)
      end
  end.
Proof.
  intros Hg. unfold answer_body. unfold_M. quiet. rewrite Hg. cbn.
  destruct (vs_similarity_search vs q 4) as [docs|e]; quiet.
  - destruct (invoke_content m _) as [t|e]; cbn;
      rewrite <- !app_assoc; reflexivity.
  - rewrite <- !app_assoc. reflexivity.
Qed.

(** What the [try] block returns, whatever the globals hold. *)
Lemma answer_body_spec (q : text) (st : State) :
  exists r st',
    answer_body con q st = (r, st') /\ globals st' = globals st
    /\ match r with
       | Ok resp =>
           exists vs m p,
             globals st = mkGlobals (Some vs) (Some m) (Some p)
             /\ vs_similarity_search vs q 4 = Ok (source_documents resp)
             /\ invoke_content m
                  (format p (join [NL; NL]
                               (map page_content (source_documents resp))) q)
                = Ok (result resp)
       | Raise e =>
           (forall vs e', vector_store (globals st) = Some vs ->
                          vs_similarity_search vs q 4 = Raise e' -> e = e')
           /\ (forall vs m p docs e',
                 globals st = mkGlobals (Some vs) (Some m) (Some p) ->
                 vs_similarity_search vs q 4 = Ok docs ->
                 invoke_content m
                   (format p (join [NL; NL] (map page_content docs)) q)
                 = Raise e' ->
                 e = e')
       end.
Proof.
  destruct st as [[ovs om op] tr]. unfold answer_body. unfold_M. quiet.
  destruct ovs as [vs|]; cbn.
  2:{ eexists _, _. split; [reflexivity|]. split; [reflexivity|].
      split; [discriminate | intros ? ? ? ? ? [=]]. }
  destruct (vs_similarity_search vs q 4) as [docs|e] eqn:Es; quiet.
  2:{ eexists _, _. split; [reflexivity|]. split; [reflexivity|]. split.
      - intros vs' e' [= <-] He. congruence.
      - intros ? ? ? ? ? [= <- _ _] He. congruence. }
  destruct op as [p|]; cbn.
  2:{ eexists _, _. split; [reflexivity|]. split; [reflexivity|]. split.
      - intros vs' e' [= <-] He. congruence.
      - intros ? ? ? ? ? [=]. }
  destruct om as [m|]; cbn.
  2:{ eexists _, _. split; [reflexivity|]. split; [reflexivity|]. split.
      - intros vs' e' [= <-] He. congruence.
      - intros ? ? ? ? ? [=]. }
  destruct (invoke_content m _) as [t|e] eqn:Ei; cbn.
  - eexists _, _. split; [reflexivity|]. split; [reflexivity|].
    exists vs, m, p. cbn. auto.
  - eexists _, _. split; [reflexivity|]. split; [reflexivity|]. split.
    + intros vs' e' [= <-] He. congruence.
    + intros ? ? ? ? ? [= <- <- <-] Hd He. congruence.
Qed.

(** Initialisation on first use never raises into [get_answer]. *)
Lemma initialize_if_needed_spec (st : State) :
  exists early st',
    initialize_if_needed con env st = (Ok early, st')
    /\ (early = None
        \/ exists e, early = Some (mkResponse
             (lit "System Error: Failed to initialize RAG pipeline. "
              ++ exn_str e) []))
    /\ (vector_store (globals st) = None -> imports env = None ->
        (GOOGLE_API_KEY env = None \/ GOOGLE_API_KEY env = Some []) ->
        early = Some (mkResponse
          (lit "System Error: Failed to initialize RAG pipeline. "
           ++ exn_str no_api_key) []))
    /\ (forall vs, vector_store (globals st) = Some vs ->
                   early = None /\ st' = st).
Proof.
  unfold initialize_if_needed.
  destruct (vector_store (globals st)) as [vs|] eqn:Ev.
  - eexists _, _. split; [reflexivity|]. split; [left; reflexivity|].
    split; [discriminate|]. intros ? _. split; reflexivity.
  - unfold initialize_rag. unfold_M. quiet.
    destruct (imports env) as [e|]; quiet.
    { eexists _, _. split; [reflexivity|]. split; [right; eauto|].
      split; [discriminate | discriminate]. }
    destruct (GOOGLE_API_KEY env) as [[|c key]|]; quiet.
    { eexists _, _. split; [reflexivity|].
      split; [right; exists no_api_key; reflexivity|].
      split; [intros _ _ _; reflexivity | discriminate]. }
    2:{ eexists _, _. split; [reflexivity|].
        split; [right; exists no_api_key; reflexivity|].
        split; [intros _ _ _; reflexivity | discriminate]. }
    destruct (HuggingFaceEmbeddings env) as [e|]; quiet.
    { eexists _, _. split; [reflexivity|]. split; [right; eauto|].
      split; [intros _ _ [|]; discriminate | discriminate]. }
    destruct (Chroma env) as [vs|e]; quiet.
    2:{ eexists _, _. split; [reflexivity|]. split; [right; eauto|].
        split; [intros _ _ [|]; discriminate | discriminate]. }
    destruct (ChatGoogleGenerativeAI env) as [m|e]; quiet.
    2:{ eexists _, _. split; [reflexivity|]. split; [right; eauto|].
        split; [intros _ _ [|]; discriminate | discriminate]. }
    eexists _, _. split; [reflexivity|]. split; [left; reflexivity|].
    split; [intros _ _ [|]; discriminate | discriminate].
Qed.

Lemma get_answer_unfold (q : text) (st st1 : State) :
  initialize_if_needed con env st = (Ok None, st1) ->
  get_answer con env q st =
  let st2 := mkState (globals st1)
                     (trace st1 ++ [Print (lit "Question: " ++ q)]) in
  match answer_body con q st2 with
  | (Ok r, st3) => (Ok r, st3)
  | (Raise e, st3) =>
      (Ok (mkResponse (lit "Error: " ++ exn_str e) []),
       mkState (globals st3)
               (trace st3 ++ [Print (lit "Error running chain: " ++ exn_str e);
                              PrintTraceback e]))
  end.
Proof.
  intros Hi. unfold get_answer. unfold mbind, M_bind, bind. rewrite Hi.
  rewrite print_quiet. unfold try_except, ret. cbn.
  destruct (answer_body con q _) as [[r|e] st3]; [reflexivity|].
  rewrite print_quiet, print_exc_quiet. cbn.
  rewrite <- app_assoc. reflexivity.
Qed.

End Answering.

(** C10 (as amended).  For every question, environment and state of the
    globals, as long as no write to the console raises, [get_answer]
    returns a response and does not raise.  The response is
    either the initialisation error message with no source document, or
    the error message of the failed call with no source document, or the
    generated text with the retrieved documents.  In particular a missing
    API key at initialisation, a retrieval error and a generation error
    (retrieval having returned documents before) each give an error
    message and an empty list of source documents. *)
Theorem get_answer_never_raises (con : Retrieval.Console)
        (env : Retrieval.Env) (q : text) (st : Retrieval.State) :
  Retrieval.console_ok con ->
  exists r st',
    Retrieval.get_answer con env q st = (Ok r, st')
    /\ ((exists e, r = Retrieval.mkResponse
           (lit "System Error: Failed to initialize RAG pipeline. "
            ++ exn_str e) [])
        \/ (exists e, r = Retrieval.mkResponse (lit "Error: " ++ exn_str e) [])
        \/ (exists vs m p,
              Retrieval.globals st' = Retrieval.mkGlobals (Some vs) (Some m) (Some p)
              /\ Retrieval.vs_similarity_search vs q 4
                 = Ok (Retrieval.source_documents r)
              /\ Retrieval.invoke_content m
                   (Retrieval.format p
                      (join [NL; NL]
                         (map page_content (Retrieval.source_documents r))) q)
                 = Ok (Retrieval.result r)))
    /\ (Retrieval.vector_store (Retrieval.globals st) = None ->
        Retrieval.imports env = None ->
        (Retrieval.GOOGLE_API_KEY env = None
         \/ Retrieval.GOOGLE_API_KEY env = Some []) ->
        r = Retrieval.mkResponse
              (lit "System Error: Failed to initialize RAG pipeline. "
               ++ exn_str Retrieval.no_api_key) [])
    /\ (forall vs e,
          Retrieval.vector_store (Retrieval.globals st) = Some vs ->
          Retrieval.vs_similarity_search vs q 4 = Raise e ->
          r = Retrieval.mkResponse (lit "Error: " ++ exn_str e) [])
    /\ (forall vs m p docs e,
          Retrieval.globals st = Retrieval.mkGlobals (Some vs) (Some m) (Some p) ->
          Retrieval.vs_similarity_search vs q 4 = Ok docs ->
          Retrieval.invoke_content m
            (Retrieval.format p (join [NL; NL] (map page_content docs)) q)
          = Raise e ->
          r = Retrieval.mkResponse (lit "Error: " ++ exn_str e) []).
Proof.
  intros Hcon.
  destruct (initialize_if_needed_spec con env Hcon st)
    as (early & st1 & Hi & Hearly & Hkey & Hset).
  destruct early as [resp|].
  - (* initialisation failed *)
    exists resp, st1. split.
    { unfold Retrieval.get_answer. unfold mbind, M_bind, bind.
      rewrite Hi. reflexivity. }
    split.
    { left. destruct Hearly as [|[e [= ->]]]; [discriminate | eauto]. }
    split.
    { intros H1 H2 H3. specialize (Hkey H1 H2 H3). congruence. }
    split.
    + intros vs e Hv. destruct (Hset vs Hv). discriminate.
    + intros vs m p docs e Hg. destruct (Hset vs); [|discriminate].
      rewrite Hg. reflexivity.
  - rewrite (get_answer_unfold con env Hcon q st st1 Hi). cbn zeta.
    match goal with |- context [Retrieval.answer_body con q ?s] =>
      destruct (answer_body_spec con Hcon q s) as (r & st3 & Hb & Hg3 & Hr)
    end.
    rewrite Hb. cbn [Retrieval.globals] in *.
    assert (Hsame : forall vs,
              Retrieval.vector_store (Retrieval.globals st) = Some vs ->
              Retrieval.globals st1 = Retrieval.globals st).
    { intros vs Hv. destruct (Hset vs Hv) as [_ ->]. reflexivity. }
    destruct r as [resp|e].
    + exists resp, st3. split; [reflexivity|]. split.
      { right. right. destruct Hr as (vs & m & p & Hg & Hs & Hinv).
        exists vs, m, p. rewrite Hg3. auto. }
      split.
      { intros H1 H2 H3. specialize (Hkey H1 H2 H3). discriminate. }
      destruct Hr as (vs0 & m0 & p0 & Hg & Hs & Hinv). split.
      * intros vs e Hv He. rewrite (Hsame vs Hv) in Hg. rewrite Hg in Hv.
        injection Hv as <-. congruence.
      * intros vs m p docs e Hgl Hs' He.
        assert (Hv : Retrieval.vector_store (Retrieval.globals st) = Some vs)
          by (rewrite Hgl; reflexivity).
        rewrite (Hsame vs Hv), Hgl in Hg. injection Hg as <- <- <-.
        rewrite Hs' in Hs. injection Hs as ->. congruence.
    + eexists _, _. split; [reflexivity|]. split; [right; left; eauto|].
      split.
      { intros H1 H2 H3. specialize (Hkey H1 H2 H3). discriminate. }
      destruct Hr as [Hr1 Hr2]. split.
      * intros vs e' Hv He. rewrite <- (Hsame vs Hv) in Hv.
        rewrite (Hr1 vs e' Hv He). reflexivity.
      * intros vs m p docs e' Hgl Hs' He.
        assert (Hv : Retrieval.vector_store (Retrieval.globals st) = Some vs)
          by (rewrite Hgl; reflexivity).
        rewrite <- (Hsame vs Hv) in Hgl.
        rewrite (Hr2 vs m p docs e' Hgl Hs' He). reflexivity.
Qed.

(** C1 (as amended).  With the pipeline initialised and a console that
    takes every write, when the search
    returns zero results [get_answer] still formats the prompt, with an
    empty context, and invokes the generation backend exactly once with
    it; the response carries the text the backend generates (or the error
    message if the backend raises) and an empty list of source
    documents. *)
Theorem zero_results_still_generates (con : Retrieval.Console)
        (env : Retrieval.Env) (q : text) (st : Retrieval.State) vs m p :
  Retrieval.console_ok con ->
  Retrieval.globals st = Retrieval.mkGlobals (Some vs) (Some m) (Some p) ->
  Retrieval.vs_similarity_search vs q 4 = Ok [] ->
  exists r st',
    Retrieval.get_answer con env q st = (Ok r, st')
    /\ Retrieval.invocations (Retrieval.trace st')
       = Retrieval.invocations (Retrieval.trace st) ++ [Retrieval.format p [] q]
    /\ Retrieval.source_documents r = []
    /\ (forall t, Retrieval.invoke_content m (Retrieval.format p [] q) = Ok t ->
                  Retrieval.result r = t)
    /\ (forall e, Retrieval.invoke_content m (Retrieval.format p [] q) = Raise e ->
                  Retrieval.result r = lit "Error: " ++ exn_str e).
Proof.
  intros Hcon Hg Hs.
  assert (Hi : Retrieval.initialize_if_needed con env st = (Ok None, st)).
  { unfold Retrieval.initialize_if_needed. rewrite Hg. reflexivity. }
  rewrite (get_answer_unfold con env Hcon q st st Hi). cbn zeta.
  rewrite (answer_body_ready con Hcon q _ vs m p) by exact Hg.
  cbn zeta. rewrite Hs. cbn [map join Retrieval.trace Retrieval.globals].
  destruct (Retrieval.invoke_content m _) as [t|e] eqn:Ei.
  - eexists _, _. split; [reflexivity|]. cbn.
    rewrite !invocations_app. cbn. rewrite !app_nil_r.
    repeat split; [congruence | discriminate].
  - eexists _, _. split; [reflexivity|]. cbn.
    rewrite !invocations_app. cbn. rewrite !app_nil_r.
    repeat split; [discriminate | congruence].
Qed.

(** ** The properties on concrete corpora *)

Section Concrete.

Import Ingest Examples.

Lemma chunk_bound_witness :
  exists docs st',
    process_file cfg0 env_ok road_a empty_state = (Ok docs, st')
    /\ map (fun d => len (page_content d)) docs = [68]
    /\ Forall (fun d => len (page_content d) <= chunk_size cfg0) docs.
Proof.
  destruct (chunk_bound cfg0 env_ok road_a empty_state)
    as (r & st' & E & H).
  assert (E0 : process_file cfg0 env_ok road_a empty_state
               = (Ok (chunks cfg0 env_ok road_a), empty_state))
    by (vm_compute; reflexivity).
  rewrite E0 in E. injection E as <- <-.
  exists (chunks cfg0 env_ok road_a), empty_state.
  split; [exact E0|]. split; [vm_compute; reflexivity | exact H].
Defined.

Lemma corpus_names_distinct : NoDup (map name corpus).
Proof. apply (bool_decide_unpack _). vm_compute. exact I. Defined.

Lemma second_run_witness :
  NoDup (map name corpus)
  /\ run cfg0 env_ok (Some corpus) empty_state = (Ok tt, corpus_once)
  /\ exists r tr, run cfg0 env_ok (Some corpus) corpus_once
                   = (r, log corpus_once tr)
                  /\ insertions tr = [].
Proof.
  assert (H1 : run cfg0 env_ok (Some corpus) empty_state
               = (Ok tt, corpus_once)) by (vm_compute; reflexivity).
  split; [exact corpus_names_distinct|]. split; [exact H1|].
  exact (second_run_inserts_nothing cfg0 env_ok corpus empty_state
           corpus_once corpus_names_distinct H1).
Defined.

(** C4, as stated, fails on two manuals that share a file name: the
    second run over the unchanged pair inserts the chunks of both again. *)
Lemma same_name_inserted_again :
  map file_path twins = [lit "bike_manuals/road/Manual.pdf";
                         lit "bike_manuals/city/Manual.pdf"]
  /\ run cfg0 env_ok (Some twins) empty_state = (Ok tt, twins_once)
  /\ run cfg0 env_ok (Some twins) twins_once = (Ok tt, twins_twice)
  /\ insertions (events_since twins_once twins_twice)
     = [IndexAdd (chunks cfg0 env_ok road_a);
        IndexAdd (chunks cfg0 env_ok city_a)].
Proof. vm_compute. repeat split; reflexivity. Qed.

Lemma changed_file_witness :
  NoDup (map name ([trail_b] ++ road_a :: []))
  /\ Forall (current (registry registered)) ([trail_b] ++ road_a :: [])
  /\ file_path road_a' = file_path road_a
  /\ calculate_file_hash road_a = Ok (digest road_a)
  /\ calculate_file_hash road_a' = Ok (digest road_a')
  /\ digest road_a' <> digest road_a
  /\ exists r st' tr,
       run cfg0 env_ok (Some ([trail_b] ++ road_a' :: [])) registered
       = (r, st')
       /\ trace st' = trace registered ++ tr
       /\ processed_files tr = [name road_a']
       /\ reingests cfg0 env_ok road_a' (digest road_a') registered r st' tr.
Proof.
  assert (H1 : NoDup (map name ([trail_b] ++ road_a :: []))).
  { apply (bool_decide_unpack _). vm_compute. exact I. }
  assert (H2 : Forall (current (registry registered))
                      ([trail_b] ++ road_a :: [])).
  { repeat constructor.
    - exists (digest trail_b). vm_compute. split; reflexivity.
    - exists (digest road_a). vm_compute. split; reflexivity. }
  assert (H3 : file_path road_a' = file_path road_a) by reflexivity.
  assert (H4 : calculate_file_hash road_a = Ok (digest road_a))
    by (vm_compute; reflexivity).
  assert (H5 : calculate_file_hash road_a' = Ok (digest road_a'))
    by (vm_compute; reflexivity).
  assert (H6 : digest road_a' <> digest road_a).
  { vm_compute. discriminate. }
  split; [exact H1|]. split; [exact H2|]. split; [exact H3|].
  split; [exact H4|]. split; [exact H5|]. split; [exact H6|].
  destruct (changed_file_reingested cfg0 env_ok [trail_b] [] road_a road_a'
              registered _ _ H1 H2 H3 H4 H5) as (r & st' & tr & E & T & C).
  rewrite bool_decide_eq_false_2 in C by exact H6.
  exists r, st', tr. split; [exact E|]. split; [exact T | exact C].
Defined.

(** C3, as stated, fails on two manuals that share a file name: after
    one byte of the first is changed, the next run processes and inserts
    the second, unchanged one as well. *)
Lemma changed_twin_drags_other :
  file_path city_a <> file_path road_a
  /\ file_path road_a' = file_path road_a
  /\ calculate_file_hash road_a' <> calculate_file_hash road_a
  /\ run cfg0 env_ok (Some twins) empty_state = (Ok tt, twins_once)
  /\ (let after := snd (run cfg0 env_ok (Some [road_a'; city_a]) twins_once) in
      processed_files (events_since twins_once after)
      = [name road_a'; name city_a]
      /\ insertions (events_since twins_once after)
         = [IndexAdd (chunks cfg0 env_ok road_a');
            IndexAdd (chunks cfg0 env_ok city_a)]).
Proof.
  vm_compute. repeat split; try reflexivity; discriminate.
Qed.


Lemma load_failure_witness :
  calculate_file_hash corrupt = Ok (digest corrupt)
  /\ pdf_load env_ok corrupt
  = Raise (Exception RuntimeError (lit "invalid pdf header"))
  /\ ingest_files cfg0 env_ok [road_a] 0 empty_state
     = (Ok 1, road_done)
  /\ ~ current (registry road_done) corrupt
  /\ ingest_files cfg0 env_ok ([road_a] ++ corrupt :: [trail_b]) 0 empty_state
     = ingest_files cfg0 env_ok [trail_b] 1
         (log road_done
            [LogInfo (MsgProcessing (name corrupt));
             LogError (MsgLoadFailed (file_path corrupt)
                         (Exception RuntimeError (lit "invalid pdf header")));
             LogWarning (MsgNoContent (name corrupt))]).
Proof.
  assert (H1 : pdf_load env_ok corrupt
               = Raise (Exception RuntimeError (lit "invalid pdf header")))
    by reflexivity.
  assert (H2 : ingest_files cfg0 env_ok [road_a] 0 empty_state
               = (Ok 1, road_done)) by (vm_compute; reflexivity).
  assert (H3 : ~ current (registry road_done) corrupt).
  { intros (h & _ & H). vm_compute in H. discriminate. }
  assert (H0 : calculate_file_hash corrupt = Ok (digest corrupt))
    by (vm_compute; reflexivity).
  split; [exact H0|].
  split; [exact H1|]. split; [exact H2|]. split; [exact H3|].
  exact (proj2 (load_failure_skips_file cfg0 env_ok [road_a] [trail_b]
                  corrupt _ _ 0 1 empty_state road_done H0 H1 H2 H3)).
Defined.

(** C8, as stated, fails on a file the scan finds and the process may not
    open: fingerprinting it raises before any [try], the run raises with
    it, and the valid manual behind it in the scan is never reached,
    although the run ingests that manual when the unreadable file is not
    there. *)
Lemma unreadable_file_aborts_run :
  (exists e, pdf_load env_ok locked = Raise e)
  /\ (exists e st',
        run cfg0 env_ok (Some [locked; road_a]) empty_state = (Raise e, st')
        /\ exn_cls e = OSError
        /\ visited (trace st') = []
        /\ insertions (trace st') = []
        /\ registry st' = registry empty_state
        /\ vectorstore st' = vectorstore empty_state)
  /\ (exists st',
        run cfg0 env_ok (Some [road_a]) empty_state = (Ok tt, st')
        /\ visited (trace st') = [name road_a]
        /\ vectorstore st' = chunks cfg0 env_ok road_a).
Proof.
  split; [eexists; reflexivity|]. split.
  - eexists _, _. split; [vm_compute; reflexivity|].
    vm_compute. repeat split; reflexivity.
  - eexists. split; [vm_compute; reflexivity|].
    vm_compute. split; reflexivity.
Qed.

Lemma no_content_witness :
  pdf_load env_ok cover_only
  = Ok [mkDocument (lit "Owner's manual")
          (<[lit "source" := MStr (file_path cover_only)]>
             (<[lit "page" := MInt 0]> ∅))]
  /\ calculate_file_hash cover_only = Ok (digest cover_only)
  /\ (exists ts, splitter cfg0 = Ok ts)
  /\ ~ current (registry empty_state) cover_only
  /\ chunks cfg0 env_ok cover_only = []
  /\ ingest_file cfg0 env_ok cover_only empty_state
     = (Ok 0, log empty_state [LogInfo (MsgProcessing (name cover_only));
                               LogWarning (MsgNoContent (name cover_only))]).
Proof.
  assert (H1 : pdf_load env_ok cover_only
               = Ok [mkDocument (lit "Owner's manual")
                       (<[lit "source" := MStr (file_path cover_only)]>
                          (<[lit "page" := MInt 0]> ∅))]) by reflexivity.
  assert (H2 : Forall (fun d => too_short d = true)
                 [mkDocument (lit "Owner's manual")
                    (<[lit "source" := MStr (file_path cover_only)]>
                       (<[lit "page" := MInt 0]> ∅))]).
  { repeat constructor. }
  assert (H3 : ~ current (registry empty_state) cover_only).
  { intros (h & _ & H). vm_compute in H. discriminate. }
  assert (H4 : calculate_file_hash cover_only = Ok (digest cover_only))
    by (vm_compute; reflexivity).
  assert (H5 : splitter cfg0
               = Ok (Splitter.mkSplitter 800 200 (separators cfg0)))
    by reflexivity.
  split; [exact H1|]. split; [exact H4|]. split; [eexists; exact H5|].
  split; [exact H3|].
  destruct (no_content_not_marked cfg0 env_ok cover_only _ empty_state
              _ _ H4 H5 H1 H2 H3) as (Hc & Hi & _).
  split; [exact Hc | exact Hi].
Defined.

(** C2, as stated, fails on a file whose only page is a cover line: the
    run produces no chunk for it and leaves the registry without an entry
    for it, and the next run processes it again. *)
Lemma cover_only_retried :
  Forall (fun d => too_short d = true)
         match pdf_load env_ok cover_only with Ok ps => ps | Raise _ => [] end
  /\ run cfg0 env_ok (Some [cover_only]) empty_state = (Ok tt, cover_once)
  /\ insertions (trace cover_once) = []
  /\ registry cover_once !! name cover_only = None
  /\ run cfg0 env_ok (Some [cover_only]) cover_once = (Ok tt, cover_twice)
  /\ processed_files (events_since cover_once cover_twice)
     = [name cover_only].
Proof.
  split; [repeat constructor|].
  vm_compute. repeat split; reflexivity.
Qed.

Lemma load_registry_witness :
  (Contents (lit "{oops") = Absent
   \/ exists s e, Contents (lit "{oops") = Contents s
                   /\ reject_all s = Raise e /\ is_JSONDecodeError e = true)
  /\ _load_registry reject_all (Contents (lit "{oops")) = Ok (JObj []).
Proof.
  assert (H : Contents (lit "{oops") = Absent
              \/ exists s e, Contents (lit "{oops") = Contents s
                   /\ reject_all s = Raise e /\ is_JSONDecodeError e = true).
  { right. eexists _, _. repeat split; reflexivity. }
  split; [exact H|].
  exact (load_registry_tolerant reject_all (Contents (lit "{oops")) H).
Defined.

(** C6, as stated, fails when the registry file is there but cannot be
    opened, or cannot be decoded as text: the exception is not a JSON
    decode error and leaves [_load_registry]. *)
Lemma unreadable_registry_raises :
  _load_registry reject_all (OpenFails permission_denied)
  = Raise permission_denied
  /\ _load_registry reject_all
       (ReadFails (Exception UnicodeDecodeError (lit "invalid start byte")))
     = Raise (Exception UnicodeDecodeError (lit "invalid start byte")).
Proof. split; reflexivity. Qed.

End Concrete.

Section ConcreteAnswers.

Import Retrieval Examples.

Lemma quiet_ok : console_ok quiet.
Proof. split; reflexivity. Qed.

Lemma zero_results_witness :
  globals (ready empty_index eager_model)
  = mkGlobals (Some empty_index) (Some eager_model) (Some the_prompt)
  /\ vs_similarity_search empty_index question 4 = Ok []
  /\ exists r st',
       get_answer quiet (renv empty_index eager_model) question
                  (ready empty_index eager_model) = (Ok r, st')
       /\ invocations (trace st') = [format the_prompt [] question]
       /\ source_documents r = []
       /\ result r = lit "Use 10W-40 oil.".
Proof.
  split; [reflexivity|]. split; [reflexivity|].
  destruct (zero_results_still_generates quiet
              (renv empty_index eager_model)
              question (ready empty_index eager_model)
              empty_index eager_model the_prompt quiet_ok eq_refl eq_refl)
    as (r & st' & E & Hinv & Hsrc & Hok & _).
  exists r, st'. split; [exact E|]. split; [exact Hinv|].
  split; [exact Hsrc|]. exact (Hok _ eq_refl).
Defined.

(** C1, as stated, fails on an index with nothing relevant: the search
    returns zero results, the generation backend is invoked all the same,
    and the answer is the text it generates. *)
Lemma zero_results_backend_invoked :
  vs_similarity_search empty_index question 4 = Ok []
  /\ exists st',
       get_answer quiet (renv empty_index eager_model) question fresh
       = (Ok (mkResponse (lit "Use 10W-40 oil.") []), st')
       /\ invocations (trace st') = [format the_prompt [] question].
Proof.
  split; [reflexivity|].
  exists (snd (get_answer quiet (renv empty_index eager_model) question
                 fresh)).
  vm_compute. split; reflexivity.
Qed.

Lemma get_answer_witness :
  globals (ready full_index failing_model)
  = mkGlobals (Some full_index) (Some failing_model) (Some the_prompt)
  /\ vs_similarity_search full_index question 4 = Ok [one_doc]
  /\ fst (get_answer quiet (renv full_index failing_model) question
                     (ready full_index failing_model))
     = Ok (mkResponse (lit "Error: " ++ lit "quota exceeded") []).
Proof.
  split; [reflexivity|]. split; [reflexivity|].
  destruct (get_answer_never_raises quiet (renv full_index failing_model)
              question (ready full_index failing_model) quiet_ok)
    as (r & st' & E & _ & _ & _ & Hgen).
  rewrite E. cbn [fst]. f_equal.
  exact (Hgen full_index failing_model the_prompt [one_doc] _
              eq_refl eq_refl eq_refl).
Defined.

(** C10, as stated, fails on a question the console cannot encode: the
    question is printed between the two [try] blocks, the exception of
    [print] leaves [get_answer], and neither the search nor the backend is
    reached.  This happens with the pipeline initialised and also on the
    first call, after an initialisation that succeeded. *)
Lemma unprintable_question_raises :
  stdout_fault ascii_console [] (lit "Question: " ++ question_fr)
  = Some cannot_encode
  /\ (exists st',
        get_answer ascii_console (renv full_index eager_model) question_fr
                   (ready full_index eager_model)
        = (Raise cannot_encode, st')
        /\ trace st' = [])
  /\ (exists st',
        get_answer ascii_console (renv full_index eager_model) question_fr
                   fresh
        = (Raise cannot_encode, st')
        /\ globals st'
           = mkGlobals (Some full_index) (Some eager_model) (Some the_prompt)
        /\ invocations (trace st') = []).
Proof.
  split; [reflexivity|]. split.
  - eexists. split; [vm_compute; reflexivity | reflexivity].
  - eexists. split; [vm_compute; reflexivity|]. split; reflexivity.
Qed.

End ConcreteAnswers.

(** * Further properties of the code *)

(** ** Cleaned text *)

Section CleanedText.

Lemma count_nl_not_head (t : text) :
  head t <> Some NL -> count_nl t = 0%nat.
Proof.
  destruct t as [|c t]; [reflexivity|]. simpl.
  destruct (N.eqb_spec c NL) as [->|Hne]; [intros H; now destruct H|].
  reflexivity.
Qed.

Lemma count_nl_NL (t : text) : count_nl (NL :: t) = S (count_nl t).
Proof. reflexivity. Qed.

(** The scan leaves at most two line breaks where a run began. *)
Lemma count_nl_re_sub (t : text) :
  count_nl (re_sub_newlines t) = Nat.min (count_nl t) 2.
Proof.
  funelim (re_sub_newlines t).
  - reflexivity.
  - destruct (count_nl_split (c :: t')) as [_ Hh].
    rewrite !count_nl_NL, H, (count_nl_not_head _ Hh). lia.
  - cbn [count_nl] in *.
    destruct (N.eqb_spec c NL) as [->|Hne]; [|reflexivity].
    rewrite H. lia.
Qed.

Lemma calm_re_sub (t : text) : calm (re_sub_newlines t) = true.
Proof.
  funelim (re_sub_newlines t).
  - reflexivity.
  - destruct (count_nl_split (c :: t')) as [_ Hh].
    assert (H0 : count_nl (re_sub_newlines
                              (skipn (count_nl (c :: t')) (c :: t'))) = 0%nat).
    { rewrite count_nl_re_sub, (count_nl_not_head _ Hh). reflexivity. }
    cbn [calm]. rewrite !count_nl_NL, H0, H. reflexivity.
  - cbn [calm]. rewrite H, andb_true_r. apply Nat.ltb_lt.
    cbn [count_nl] in *.
    destruct (N.eqb_spec c NL) as [->|Hne]; [|lia].
    rewrite count_nl_re_sub. lia.
Qed.

Lemma re_sub_calm (t : text) : calm t = true -> re_sub_newlines t = t.
Proof.
  funelim (re_sub_newlines t); intros Hc.
  - reflexivity.
  - cbn [calm] in Hc. apply andb_true_iff in Hc as [Hc _].
    apply Nat.ltb_lt in Hc. lia.
  - cbn [calm] in Hc. apply andb_true_iff in Hc as [_ Hc].
    rewrite (H Hc). reflexivity.
Qed.

Lemma count_nl_replace_nbsp (t : text) :
  count_nl (replace_nbsp t) = count_nl t.
Proof.
  induction t as [|c t IH]; [reflexivity|].
  unfold replace_nbsp in *. cbn [map count_nl].
  destruct (N.eqb_spec c NBSP) as [->|Hn]; [reflexivity|].
  destruct (c =? NL)%N; [rewrite IH|]; reflexivity.
Qed.

Lemma calm_replace_nbsp (t : text) :
  calm t = true -> calm (replace_nbsp t) = true.
Proof.
  induction t as [|c t IH]; [reflexivity|].
  intros Hc. cbn [calm] in Hc. apply andb_true_iff in Hc as [H1 H2].
  change (replace_nbsp (c :: t))
    with ((if (c =? NBSP)%N then SPACE else c) :: replace_nbsp t).
  cbn [calm]. rewrite (IH H2), andb_true_r.
  change ((if (c =? NBSP)%N then SPACE else c) :: replace_nbsp t)
    with (replace_nbsp (c :: t)).
  rewrite count_nl_replace_nbsp. exact H1.
Qed.

Lemma calm_suffix (l s : text) : calm (l ++ s) = true -> calm s = true.
Proof.
  induction l as [|c l IH]; [auto|].
  intros Hc. rewrite <- app_comm_cons in Hc. cbn [calm] in Hc.
  apply andb_true_iff in Hc as [_ Hc]. exact (IH Hc).
Qed.

Lemma count_nl_app_le (p r : text) : (count_nl p <= count_nl (p ++ r))%nat.
Proof.
  induction p as [|c p IH]; [simpl; lia|].
  rewrite <- app_comm_cons. cbn [count_nl].
  destruct (c =? NL)%N; lia.
Qed.

Lemma calm_prefix (p r : text) : calm (p ++ r) = true -> calm p = true.
Proof.
  induction p as [|c p IH]; [reflexivity|].
  intros Hc. rewrite <- app_comm_cons in Hc. cbn [calm] in Hc.
  apply andb_true_iff in Hc as [H1 H2]. cbn [calm].
  rewrite (IH H2), andb_true_r. apply Nat.ltb_lt. apply Nat.ltb_lt in H1.
  pose proof (count_nl_app_le (c :: p) r) as Hle.
  rewrite <- app_comm_cons in Hle. lia.
Qed.

Lemma calm_strip (t : text) : calm t = true -> calm (strip t) = true.
Proof.
  intros Hc. destruct (strip_trimmed t) as (l & r & Ht & _).
  rewrite Ht in Hc. apply calm_suffix in Hc. apply calm_prefix in Hc.
  exact Hc.
Qed.

Lemma calm_no_triple (w : text) :
  calm w = true -> forall l r, w <> l ++ [NL; NL; NL] ++ r.
Proof.
  intros Hc l r ->. apply calm_suffix in Hc. discriminate Hc.
Qed.

Lemma calm_clean_text (t : text) : calm (clean_text t) = true.
Proof.
  unfold clean_text. apply calm_strip, calm_replace_nbsp, calm_re_sub.
Qed.

Lemma replace_nbsp_none (t : text) : NBSP ∉ replace_nbsp t.
Proof.
  induction t as [|c t IH]; [apply not_elem_of_nil|].
  change (replace_nbsp (c :: t))
    with ((if (c =? NBSP)%N then SPACE else c) :: replace_nbsp t).
  apply not_elem_of_cons. split; [|exact IH].
  destruct (N.eqb_spec c NBSP) as [->|Hn]; [discriminate | congruence].
Qed.

Lemma replace_nbsp_id (t : text) : NBSP ∉ t -> replace_nbsp t = t.
Proof.
  induction t as [|c t IH]; [reflexivity|].
  intros Hn. apply not_elem_of_cons in Hn as [H1 H2].
  unfold replace_nbsp in *. cbn [map]. rewrite (IH H2).
  destruct (N.eqb_spec c NBSP); [congruence | reflexivity].
Qed.

Lemma strip_elem (c : char) (t : text) : c ∈ strip t -> c ∈ t.
Proof.
  intros Hc. destruct (strip_trimmed t) as (l & r & Ht & _).
  rewrite Ht. apply elem_of_app. right. apply elem_of_app. left. exact Hc.
Qed.

Lemma clean_text_no_nbsp (t : text) : NBSP ∉ clean_text t.
Proof.
  unfold clean_text. intros Hc. apply strip_elem in Hc.
  exact (replace_nbsp_none _ Hc).
Qed.

Lemma count_nl_le_length (t : text) : (count_nl t <= length t)%nat.
Proof.
  induction t as [|c t IH]; [reflexivity|]. cbn [count_nl length].
  destruct (c =? NL)%N; lia.
Qed.

Lemma re_sub_length (t : text) :
  (length (re_sub_newlines t) <= length t)%nat.
Proof.
  funelim (re_sub_newlines t).
  - reflexivity.
  - rewrite length_skipn in H.
    pose proof (count_nl_le_length (c :: t')). cbn [length] in *. lia.
  - cbn [length]. lia.
Qed.

(** A clean text is left as it is. *)
Lemma clean_text_fixed (w : text) :
  calm w = true -> NBSP ∉ w ->
  (forall c, head w = Some c -> isspace c = false) ->
  (forall c, last w = Some c -> isspace c = false) ->
  clean_text w = w.
Proof.
  intros Hc Hn Hh Hl. unfold clean_text.
  rewrite (re_sub_calm w Hc), (replace_nbsp_id w Hn).
  symmetry. apply trimmed_strip. exists [], [].
  rewrite app_nil_r. repeat split; auto.
Qed.

End CleanedText.

(** X1.  The text [clean_text] returns holds no non-breaking space, does
    not begin or end with whitespace, holds no three consecutive line
    breaks, and is not longer than the input. *)
Theorem clean_text_postconditions (t : text) :
  (NBSP ∉ clean_text t)
  /\ (forall c, head (clean_text t) = Some c -> isspace c = false)
  /\ (forall c, last (clean_text t) = Some c -> isspace c = false)
  /\ (forall l r, clean_text t <> l ++ [NL; NL; NL] ++ r)
  /\ (length (clean_text t) <= length t)%nat.
Proof.
  split; [apply clean_text_no_nbsp|].
  destruct (strip_trimmed (replace_nbsp (re_sub_newlines t)))
    as (l & r & _ & _ & _ & Hh & Hl).
  split; [exact Hh|]. split; [exact Hl|].
  split; [apply calm_no_triple, calm_clean_text|].
  unfold clean_text. etransitivity; [apply strip_length|].
  unfold replace_nbsp. rewrite length_map. apply re_sub_length.
Qed.

(** X2.  Cleaning is idempotent: cleaning a cleaned text changes
    nothing. *)
Theorem clean_text_idempotent (t : text) :
  clean_text (clean_text t) = clean_text t.
Proof.
  destruct (strip_trimmed (replace_nbsp (re_sub_newlines t)))
    as (l & r & _ & _ & _ & Hh & Hl).
  apply clean_text_fixed.
  - apply calm_clean_text.
  - apply clean_text_no_nbsp.
  - exact Hh.
  - exact Hl.
Qed.

(** ** Fingerprints and file names *)

Section Fingerprint.

Lemma le_bytes_length (n : nat) (x : Z) : length (MD5.le_bytes n x) = n.
Proof.
  revert x. induction n as [|n IH]; intros x; [reflexivity|].
  cbn [MD5.le_bytes length]. rewrite IH. reflexivity.
Qed.

Lemma le_bytes_range (n : nat) (x : Z) :
  Forall (fun b => 0 <= b < 256) (MD5.le_bytes n x).
Proof.
  revert x. induction n as [|n IH]; intros x; [constructor|].
  cbn [MD5.le_bytes]. constructor; [|apply IH].
  change 0xff with (Z.ones 8). rewrite Z.land_ones by lia.
  apply Z.mod_pos_bound. reflexivity.
Qed.

Lemma hex_digit_is_hex (d : Z) :
  0 <= d < 16 -> is_hex_digit (MD5.hex_digit d) = true.
Proof.
  intros Hd. unfold MD5.hex_digit, is_hex_digit.
  destruct (Z.ltb_spec d 10).
  - apply orb_true_iff. left. apply andb_true_iff.
    split; apply N.leb_le; lia.
  - apply orb_true_iff. right. apply andb_true_iff.
    split; apply N.leb_le; lia.
Qed.

Lemma nibbles_range (b : Z) :
  0 <= b < 256 -> 0 <= Z.shiftr b 4 < 16 /\ 0 <= Z.land b 15 < 16.
Proof.
  intros Hb. split.
  - rewrite Z.shiftr_div_pow2 by lia. change (2 ^ 4) with 16.
    split; [apply Z.div_pos; lia | apply Z.div_lt_upper_bound; lia].
  - change 15 with (Z.ones 4). rewrite Z.land_ones by lia.
    apply Z.mod_pos_bound. reflexivity.
Qed.

Lemma hex_of_bytes (bs : list Z) :
  Forall (fun b => 0 <= b < 256) bs ->
  let hex := flat_map (fun b => [MD5.hex_digit (Z.shiftr b 4);
                                 MD5.hex_digit (Z.land b 15)]) bs in
  length hex = (2 * length bs)%nat
  /\ Forall (fun c => is_hex_digit c = true) hex.
Proof.
  induction 1 as [|b bs Hb _ [IHl IHf]]; [split; [reflexivity | constructor]|].
  cbn [flat_map app length]. destruct (nibbles_range b Hb) as [Hhi Hlo].
  split; [cbn zeta in IHl; lia|].
  constructor; [apply hex_digit_is_hex, Hhi|].
  constructor; [apply hex_digit_is_hex, Hlo | exact IHf].
Qed.

Lemma basename_from_no_slash (cur t : text) :
  (47%N ∉ cur) -> 47%N ∉ Ingest.basename_from cur t.
Proof.
  revert cur. induction t as [|c t IH]; intros cur Hcur; cbn.
  - intros Hin. apply Hcur. apply list_elem_of_In. apply in_rev.
    apply list_elem_of_In. exact Hin.
  - destruct (N.eqb_spec c 47) as [->|Hne].
    + apply IH. apply not_elem_of_nil.
    + apply IH. apply not_elem_of_cons. split; [congruence | exact Hcur].
Qed.

Lemma basename_from_suffix (cur t : text) :
  exists dir, rev cur ++ t = dir ++ Ingest.basename_from cur t
              /\ (dir = [] \/ last dir = Some 47%N).
Proof.
  revert cur. induction t as [|c t IH]; intros cur; cbn.
  - exists []. rewrite app_nil_r. split; [reflexivity | left; reflexivity].
  - destruct (N.eqb_spec c 47) as [->|Hne].
    + destruct (IH []) as (dir & Hd & Hl). cbn in Hd.
      exists ((rev cur ++ [47%N]) ++ dir). split.
      * rewrite <- !app_assoc. cbn. rewrite <- Hd. reflexivity.
      * right. destruct Hl as [->|Hl].
        -- rewrite app_nil_r. apply last_snoc.
        -- destruct dir as [|d dir]; [discriminate|].
           rewrite last_app_cons. exact Hl.
    + destruct (IH (c :: cur)) as (dir & Hd & Hl). cbn [rev] in Hd.
      exists dir. split; [|exact Hl]. rewrite <- Hd, <- app_assoc.
      reflexivity.
Qed.

Lemma first_field_spec (t : text) :
  exists rest,
    t = Ingest.first_field t ++ rest
    /\ Forall (fun c => is_field_separator c = false) (Ingest.first_field t)
    /\ (rest = [] \/ exists c, head rest = Some c
                               /\ is_field_separator c = true).
Proof.
  induction t as [|c t (rest & Ht & Hf & Hr)]; cbn [Ingest.first_field].
  - exists []. repeat split; [constructor | left; reflexivity].
  - fold (is_field_separator c).
    destruct (is_field_separator c) eqn:E.
    + exists (c :: t). repeat split; [constructor|].
      right. exists c. split; [reflexivity | exact E].
    + exists rest. split; [cbn; congruence|]. split; [|exact Hr].
      constructor; assumption.
Qed.

End Fingerprint.

Lemma hexdigest_format (buf : list byte) :
  length (MD5.hexdigest buf) = 32%nat
  /\ Forall (fun c => is_hex_digit c = true) (MD5.hexdigest buf).
Proof.
  unfold MD5.hexdigest.
  assert (Hr : Forall (fun b => 0 <= b < 256) (MD5.digest buf)).
  { unfold MD5.digest. cbn zeta.
    repeat (apply Forall_app; split); apply le_bytes_range. }
  assert (Hl : length (MD5.digest buf) = 16%nat).
  { unfold MD5.digest. cbn zeta.
    rewrite !length_app, !le_bytes_length. reflexivity. }
  destruct (hex_of_bytes _ Hr) as [H1 H2]. cbn zeta in H1.
  split; [rewrite H1, Hl; reflexivity | exact H2].
Qed.

(** X3.  [calculate_file_hash] returns, for every file it can read and
    whatever the content, a string of exactly 32 lower-case hexadecimal
    digits; for a file it cannot open or read it raises the exception of
    [open] or [read]. *)
Theorem file_hash_format (f : Ingest.SourceFile) :
  match Ingest.calculate_file_hash f with
  | Ok file_hash =>
      (exists buf, Ingest.file_read f = Ok buf)
      /\ length file_hash = 32%nat
      /\ Forall (fun c => is_hex_digit c = true) file_hash
  | Raise e => Ingest.file_read f = Raise e
  end.
Proof.
  unfold Ingest.calculate_file_hash.
  destruct (Ingest.file_read f) as [buf|e]; [|reflexivity].
  split; [eauto | apply hexdigest_format].
Qed.

(** X4.  The metadata [extract_metadata] derives from a path: [source] is
    the last component of the path and holds no slash; [bike_model] is
    the beginning of that file name up to, and without, its first
    underscore, hyphen or whitespace character (the whole name when it
    has none); [file_path] is the path itself. *)
Theorem extract_metadata_fields (path : text) :
  exists filename bike_model dir rest,
    Ingest.extract_metadata path !! lit "source" = Some (MStr filename)
    /\ Ingest.extract_metadata path !! lit "bike_model"
       = Some (MStr bike_model)
    /\ Ingest.extract_metadata path !! lit "file_path" = Some (MStr path)
    /\ path = dir ++ filename
    /\ (dir = [] \/ last dir = Some 47%N)
    /\ (47%N ∉ filename)
    /\ filename = bike_model ++ rest
    /\ Forall (fun c => is_field_separator c = false) bike_model
    /\ (rest = [] \/ exists c, head rest = Some c
                               /\ is_field_separator c = true).
Proof.
  destruct (basename_from_suffix [] path) as (dir & Hd & Hl).
  destruct (first_field_spec (Ingest.basename path)) as (rest & Hr & Hf & Hs).
  exists (Ingest.basename path), (Ingest.first_field (Ingest.basename path)),
    dir, rest.
  unfold Ingest.extract_metadata.
  split; [apply lookup_insert_eq|].
  split; [rewrite lookup_insert_ne by (vm_compute; discriminate);
          apply lookup_insert_eq|].
  split; [rewrite !lookup_insert_ne by (vm_compute; discriminate);
          apply lookup_insert_eq|].
  split; [exact Hd|]. split; [exact Hl|].
  split; [apply basename_from_no_slash, not_elem_of_nil|].
  split; [exact Hr|]. split; [exact Hf | exact Hs].
Qed.

(** ** Pages, registry and index over a run *)

Section RunProperties.

Import Ingest.

Variable cfg : IngestionConfig.
Variable env : Backend.

Lemma too_short_iff (d : Document) :
  too_short d = false <-> 50 <= len (strip (page_content d)).
Proof.
  unfold too_short. destruct (page_content d) as [|c t] eqn:E.
  - split; [discriminate|]. unfold len. cbn. lia.
  - rewrite Z.ltb_ge. reflexivity.
Qed.

Lemma added_app (a b : list event) : added (a ++ b) = added a ++ added b.
Proof.
  induction a as [|ev a IH]; [reflexivity|].
  destruct ev; cbn; rewrite ?IH, <- ?app_assoc; reflexivity.
Qed.

Lemma visited_app (a b : list event) :
  visited (a ++ b) = visited a ++ visited b.
Proof.
  induction a as [|ev a IH]; [reflexivity|].
  destruct ev as [m| | | | |]; try exact IH.
  destruct m; try exact IH; cbn; f_equal; exact IH.
Qed.

Lemma summaries_app (a b : list event) :
  summaries (a ++ b) = summaries a ++ summaries b.
Proof.
  induction a as [|ev a IH]; [reflexivity|].
  destruct ev as [m| | | | |]; try exact IH.
  destruct m; try exact IH; cbn; f_equal; exact IH.
Qed.

Lemma saves_follow_adds_app (b : bool) (a c : list event) :
  saves_follow_adds b (a ++ c)
  = saves_follow_adds b a && saves_follow_adds (ends_with_add b a) c.
Proof.
  revert b. induction a as [|ev a IH]; intros b; [reflexivity|].
  cbn [app saves_follow_adds]. rewrite IH, andb_assoc. reflexivity.
Qed.

Lemma ends_with_add_app (b : bool) (a c : list event) :
  ends_with_add b (a ++ c) = ends_with_add (ends_with_add b a) c.
Proof. apply fold_left_app. Qed.

(** The events of the frame carry no chunk, no file and no summary. *)
Lemma frame_events_neutral (tr : list event) :
  Forall (fun ev => is_frame_event ev = true) tr ->
  added tr = [] /\ visited tr = [] /\ summaries tr = []
  /\ (forall b, saves_follow_adds b tr = true)
  /\ Forall (fun ev => is_index_add ev = false) tr.
Proof.
  induction 1 as [|ev tr Hev _ (Ha & Hv & Hs & Hf & Hi)].
  - repeat split; constructor.
  - destruct ev as [m|m|m| | |]; try discriminate;
      destruct m; try discriminate; cbn;
      (repeat split; [assumption .. | intros; apply Hf | constructor; auto]).
Qed.

Lemma ingest_file_events (f : SourceFile) (st : State) :
  exists r st', ingest_file cfg env f st = (r, st')
                /\ file_events cfg env f st r st'.
Proof.
  rewrite ingest_file_unfold.
  destruct (calculate_file_hash f) as [h|e0] eqn:Hh.
  2:{ eexists _, _. split; [reflexivity|]. now apply file_unreadable. }
  case_bool_decide as Hc.
  - eexists _, _. split; [reflexivity|]. apply file_skipped.
    apply (current_iff _ _ _ Hh). exact Hc.
  - assert (Hnc : ~ current (registry st) f)
      by (rewrite (current_iff _ _ _ Hh); exact Hc).
    cbn zeta.
    destruct (process_result cfg env f) as [[|d docs]|e0] eqn:Ech.
    + eexists _, _. split; [reflexivity|].
      pose proof (file_without_chunks cfg env f st h Hh Hnc Ech) as H.
      unfold log in *. cbn in *. rewrite <- app_assoc. exact H.
    + assert (Ech' : chunks cfg env f = d :: docs)
        by (unfold chunks; rewrite Ech; reflexivity).
      assert (Hne : chunks cfg env f <> []) by (rewrite Ech'; discriminate).
      destruct (add_fault env _ _) as [e|].
      * eexists _, _. split; [reflexivity|].
        pose proof (file_insert_raised cfg env f st h e Hh Hnc Hne) as H.
        unfold log in *. cbn in *. rewrite <- app_assoc, <- Ech'. exact H.
      * eexists _, _. split; [reflexivity|].
        pose proof (file_inserted cfg env f st h Hh Hnc Hne) as H.
        rewrite <- app_assoc, <- Ech'. exact H.
    + eexists _, _. split; [reflexivity|].
      pose proof (file_split_refused cfg env f st h e0 Hh Hnc Ech) as H.
      assert (Hl : load_log env f = []).
      { unfold load_log. unfold process_result in Ech.
        destruct (pdf_load env f); [reflexivity | discriminate]. }
      rewrite Hl. exact H.
Qed.

Lemma ingest_files_loop (fs : list SourceFile) (n : Z) (st : State) :
  exists r st', ingest_files cfg env fs n st = (r, st')
                /\ loop_events cfg env fs n st r st'.
Proof.
  revert n st. induction fs as [|f fs IH]; intros n st.
  - eexists _, _. split; [reflexivity | constructor].
  - destruct (ingest_file_events f st) as (r1 & st1 & E1 & H1).
    cbn [ingest_files]. unfold mbind, M_bind, bind. rewrite E1.
    destruct r1 as [k|e].
    + destruct (IH (n + k) st1) as (r & st' & E & H).
      exists r, st'. split; [exact E|]. eapply loop_next; eassumption.
    + eexists _, _. split; [reflexivity|]. now apply loop_raised.
Qed.

Lemma load_log_neutral (f : SourceFile) :
  added (load_log env f) = [] /\ visited (load_log env f) = []
  /\ summaries (load_log env f) = []
  /\ (forall b, saves_follow_adds b (load_log env f) = true).
Proof.
  unfold load_log. destruct (pdf_load env f); repeat split; intros [|];
    reflexivity.
Qed.

(** What one pass of the loop body adds to the log, the index and the
    count.  The file is logged once, unless fingerprinting it raises. *)
Lemma file_events_trace (f : SourceFile) (st st' : State) (r : res Z) :
  file_events cfg env f st r st' ->
  exists tr,
    trace st' = trace st ++ tr
    /\ vectorstore st' = vectorstore st ++ added tr
    /\ (forall k, r = Ok k -> k = len (added tr))
    /\ (visited tr = [name f] \/ visited tr = [] /\ exists e, r = Raise e)
    /\ summaries tr = []
    /\ (forall b, saves_follow_adds b tr = true).
Proof.
  destruct (load_log_neutral f) as (La & Lv & Ls & Lf).
  intros H. destruct H.
  - exists []. rewrite !app_nil_r.
    repeat split; try reflexivity; [discriminate | right; eauto].
  - eexists. split; [reflexivity|]. cbn. rewrite app_nil_r.
    repeat split; try reflexivity; [|left; reflexivity].
    intros k [= <-]. reflexivity.
  - eexists. split; [reflexivity|]. cbn. rewrite app_nil_r.
    repeat split; try reflexivity; [discriminate | left; reflexivity].
  - eexists. split; [reflexivity|]. cbn.
    rewrite added_app, visited_app, summaries_app, La, Lv, Ls. cbn.
    rewrite app_nil_r. repeat split; try reflexivity.
    + intros k [= <-]. reflexivity.
    + left; reflexivity.
    + intros b. rewrite saves_follow_adds_app, Lf. reflexivity.
  - eexists. split; [reflexivity|]. cbn.
    rewrite added_app, visited_app, summaries_app, La, Lv, Ls. cbn.
    rewrite app_nil_r. repeat split; try reflexivity.
    + discriminate.
    + left; reflexivity.
    + intros b. rewrite saves_follow_adds_app, Lf. reflexivity.
  - eexists. split; [reflexivity|]. cbn.
    rewrite added_app, visited_app, summaries_app, La, Lv, Ls. cbn.
    rewrite app_nil_r. repeat split; try reflexivity.
    + intros k [= <-]. reflexivity.
    + left; reflexivity.
    + intros b. rewrite saves_follow_adds_app, Lf. reflexivity.
Qed.

(** The same for the whole loop. *)
Lemma loop_events_trace (fs : list SourceFile) (n : Z) (st st' : State)
      (r : res Z) :
  loop_events cfg env fs n st r st' ->
  exists tr reached rest,
    trace st' = trace st ++ tr
    /\ vectorstore st' = vectorstore st ++ added tr
    /\ (forall m, r = Ok m -> m = n + len (added tr) /\ rest = [])
    /\ fs = reached ++ rest
    /\ visited tr = map name reached
    /\ summaries tr = []
    /\ (forall b, saves_follow_adds b tr = true).
Proof.
  induction 1 as [n st | f rest n st e st1 Hf
                  | f rest n st k st1 r st2 Hf Hl IH].
  - exists [], [], []. rewrite !app_nil_r. repeat split; try reflexivity.
    + injection H as <-. unfold len. cbn. lia.
  - destruct (file_events_trace _ _ _ _ Hf) as (tr & T & V & _ & Vi & S & F).
    destruct Vi as [Vi|[Vi _]].
    + exists tr, [f], rest.
      repeat split; try assumption; try discriminate.
    + exists tr, [], (f :: rest).
      repeat split; try assumption; try discriminate.
  - destruct (file_events_trace _ _ _ _ Hf)
      as (tr1 & T1 & V1 & K1 & Vi1 & S1 & F1).
    destruct Vi1 as [Vi1|[_ [e He]]]; [|discriminate].
    destruct IH as (tr2 & reached & rest' & T2 & V2 & K2 & Hfs & Vi2 & S2 & F2).
    exists (tr1 ++ tr2), (f :: reached), rest'.
    split; [rewrite T2, T1, app_assoc; reflexivity|].
    split; [rewrite V2, V1, added_app, app_assoc; reflexivity|].
    split.
    { intros m Hm. destruct (K2 m Hm) as [-> ->].
      rewrite (K1 k eq_refl), added_app. unfold len. rewrite length_app.
      split; [lia | reflexivity]. }
    split; [rewrite Hfs; reflexivity|].
    split; [rewrite visited_app, Vi1, Vi2; reflexivity|].
    split; [rewrite summaries_app, S1, S2; reflexivity|].
    intros b. rewrite saves_follow_adds_app, F1, F2. reflexivity.
Qed.

(** What one pass of the loop body does to the registry. *)
Lemma file_events_registry (f : SourceFile) (st st' : State) (r : res Z) :
  file_events cfg env f st r st' ->
  forall key,
    registry st' !! key = registry st !! key
    \/ (key = name f
        /\ (exists file_hash,
              calculate_file_hash f = Ok file_hash
              /\ registry st' !! key = Some file_hash)
        /\ chunks cfg env f <> []).
Proof.
  intros H key. destruct H; try (left; reflexivity).
  cbn. destruct (decide (key = name f)) as [->|Hne].
  - right. split; [reflexivity|]. split; [|assumption].
    eexists. split; [eassumption | apply lookup_insert_eq].
  - left. apply lookup_insert_ne. congruence.
Qed.

Lemma loop_events_registry (fs : list SourceFile) (n : Z) (st st' : State)
      (r : res Z) :
  loop_events cfg env fs n st r st' ->
  forall key,
    registry st' !! key = registry st !! key
    \/ exists f, f ∈ fs /\ key = name f
                  /\ (exists file_hash,
                        calculate_file_hash f = Ok file_hash
                        /\ registry st' !! key = Some file_hash)
                  /\ chunks cfg env f <> [].
Proof.
  induction 1 as [n st | f rest n st e st1 Hf
                  | f rest n st k st1 r st2 Hf Hl IH]; intros key.
  - left. reflexivity.
  - destruct (file_events_registry _ _ _ _ Hf key) as [H|(H1 & H2 & H3)];
      [left; exact H|].
    right. exists f. split; [apply list_elem_of_here|]. auto.
  - destruct (IH key) as [H|(g & Hg & H1 & H2 & H3)].
    + rewrite H.
      destruct (file_events_registry _ _ _ _ Hf key) as [H'|(H1 & H2 & H3)];
        [left; exact H'|].
      right. exists f. split; [apply list_elem_of_here|].
      split; [exact H1|]. split; [exact H2 | exact H3].
    + right. exists g. split; [apply list_elem_of_further; exact Hg|]. auto.
Qed.

(** The events of [validate]. *)
Lemma validate_shape (st : State) :
  exists r tr,
    validate env st = (r, log st tr)
    /\ Forall (fun ev => is_frame_event ev = true) tr
    /\ (forall e,
          similarity_search env (vectorstore st) test_query 3 = Raise e ->
          r = Raise e)
    /\ (forall docs,
          similarity_search env (vectorstore st) test_query 3 = Ok docs ->
          r = Ok tt).
Proof.
  unfold validate, query. unfold mbind, M_bind, bind, emit. cbn.
  destruct (similarity_search env _ _ _) as [[|top rest]|e]; cbn.
  - eexists _, [_; _]. unfold log. cbn. rewrite <- app_assoc.
    split; [reflexivity|]. split; [repeat constructor|].
    split; [discriminate | reflexivity].
  - eexists _, [_; _]. unfold log. cbn. rewrite <- app_assoc.
    split; [reflexivity|]. split; [repeat constructor|].
    split; [discriminate | reflexivity].
  - eexists _, [_]. split; [reflexivity|]. split; [repeat constructor|].
    split; [intros e' [= ->]; reflexivity | discriminate].
Qed.

(** [run] is the loop between two opening records and, when the loop
    returns, the closing record and the validation. *)
Lemma run_shape (fs : list SourceFile) (st : State) :
  let opening := [LogInfo MsgStarting;
                  LogInfo (MsgFound (len fs) (source_dir cfg))] in
  exists r1 st1,
    loop_events cfg env fs 0 (log st opening) r1 st1
    /\ match r1 with
       | Raise e => run cfg env (Some fs) st = (Raise e, st1)
       | Ok n =>
           exists r trv,
             run cfg env (Some fs) st
             = (r, log st1 (LogInfo (summary n) :: trv))
             /\ validate env (log st1 [LogInfo (summary n)])
                = (r, log (log st1 [LogInfo (summary n)]) trv)
             /\ Forall (fun ev => is_frame_event ev = true) trv
       end.
Proof.
  intros opening. rewrite run_unfold. fold opening.
  destruct (ingest_files_loop fs 0 (log st opening)) as (r1 & st1 & E & H).
  exists r1, st1. split; [exact H|]. rewrite E. destruct r1 as [n|e];
    [|reflexivity].
  fold (summary n).
  destruct (validate_shape (log st1 [LogInfo (summary n)]))
    as (r & trv & Ev & Hv & _).
  exists r, trv. split; [|split; [exact Ev | exact Hv]].
  rewrite Ev. unfold log. cbn. rewrite <- app_assoc. reflexivity.
Qed.

Lemma summary_neutral (n : Z) :
  added [LogInfo (summary n)] = [] /\ visited [LogInfo (summary n)] = []
  /\ (forall b, saves_follow_adds b [LogInfo (summary n)] = true).
Proof. unfold summary. destruct (0 <? n); repeat split. Qed.

(** Everything [run] adds to the log, read with the trace checks. *)
Lemma run_trace (fs : list SourceFile) (st : State) :
  exists r st' tr reached rest,
    run cfg env (Some fs) st = (r, st')
    /\ trace st' = trace st ++ tr
    /\ vectorstore st' = vectorstore st ++ added tr
    /\ (summaries tr = [] /\ (exists e, r = Raise e)
        \/ summaries tr = [MsgComplete (len (added tr))] /\ added tr <> []
        \/ summaries tr = [MsgNothingNew] /\ added tr = [])
    /\ fs = reached ++ rest
    /\ visited tr = map name reached
    /\ (rest = [] \/ exists e, r = Raise e)
    /\ saves_follow_adds false tr = true.
Proof.
  destruct (run_shape fs st) as (r1 & st1 & Hloop & Hrun). cbn zeta in Hloop.
  destruct (loop_events_trace _ _ _ _ _ Hloop)
    as (tr & reached & rest & T & V & K & Hfs & Vi & S & F).
  destruct r1 as [n|e].
  - destruct Hrun as (r & trv & Er & _ & Hfr).
    destruct (frame_events_neutral trv Hfr) as (Av & Vv & Sv & Fv & _).
    destruct (summary_neutral n) as (As & Vs & Fs).
    destruct (K n eq_refl) as [Hn ->].
    exists r, (log st1 (LogInfo (summary n) :: trv)),
      ([LogInfo MsgStarting; LogInfo (MsgFound (len fs) (source_dir cfg))]
         ++ tr ++ [LogInfo (summary n)] ++ trv), reached, [].
    split; [exact Er|].
    split; [cbn; rewrite T; cbn; rewrite <- !app_assoc; reflexivity|].
    split.
    { cbn [log vectorstore]. rewrite V. cbn [log vectorstore].
      rewrite !added_app, As, Av. cbn. rewrite !app_nil_r. reflexivity. }
    split.
    { rewrite !added_app, !summaries_app, S, Sv, As, Av. cbn.
      rewrite !app_nil_r. unfold summary.
      destruct (Z.ltb_spec 0 n) as [Hpos|Hle].
      - right. left. split; [cbn; rewrite Hn, Z.add_0_l; reflexivity|].
        intros Hnil. rewrite Hnil in Hn. unfold len in Hn. cbn in Hn. lia.
      - right. right. split; [reflexivity|].
        destruct (added tr); [reflexivity|]. unfold len in Hn. cbn in Hn. lia. }
    split; [exact Hfs|].
    split.
    { rewrite !visited_app, Vi, Vs, Vv. cbn. rewrite !app_nil_r.
      reflexivity. }
    split; [left; reflexivity|].
    rewrite !saves_follow_adds_app, F, Fs, Fv. reflexivity.
  - exists (Raise e), st1,
      ([LogInfo MsgStarting; LogInfo (MsgFound (len fs) (source_dir cfg))]
         ++ tr), reached, rest.
    split; [exact Hrun|].
    split; [rewrite T; cbn; rewrite <- app_assoc; reflexivity|].
    split; [rewrite V; cbn; reflexivity|].
    split; [left; split; [cbn; exact S | eauto]|].
    split; [exact Hfs|].
    split; [cbn; exact Vi|].
    split; [right; eauto|].
    cbn. apply F.
Qed.

End RunProperties.

(** X5.  The pages [process_file] keeps for splitting are exactly the
    loaded pages whose stripped text has at least 50 characters; each is
    kept with its text cleaned and with its metadata updated by the
    metadata of the file, which replace the loader's entries of the same
    keys and leave its other entries, such as the page number, alone. *)
Theorem cleaned_docs_pages (path : text) (pages : list Document)
        (d' : Document) :
  d' ∈ Ingest.cleaned_docs path pages <->
  exists d,
    d ∈ pages /\ 50 <= len (strip (page_content d))
    /\ page_content d' = clean_text (page_content d)
    /\ forall key,
         metadata d' !! key
         = match Ingest.extract_metadata path !! key with
           | Some v => Some v
           | None => metadata d !! key
           end.
Proof.
  unfold Ingest.cleaned_docs. rewrite list_elem_of_In, in_map_iff. split.
  - intros (d & <- & Hd). apply list_elem_of_In, list_elem_of_filter in Hd.
    destruct Hd as [Hk Hd]. exists d. split; [exact Hd|].
    split; [apply too_short_iff; destruct (Ingest.too_short d);
            [destruct Hk | reflexivity]|].
    split; [reflexivity|]. intros key. cbn. unfold Ingest.dict_update.
    rewrite lookup_union.
    destruct (Ingest.extract_metadata path !! key), (metadata d !! key);
      reflexivity.
  - intros (d & Hd & Hlen & Hc & Hm). exists d. split.
    + destruct d' as [c' m']. cbn in *. unfold Ingest.clean_doc. f_equal.
      * congruence.
      * apply map_eq. intros key. rewrite Hm. unfold Ingest.dict_update.
        rewrite lookup_union.
        destruct (Ingest.extract_metadata path !! key), (metadata d !! key);
          reflexivity.
    + apply list_elem_of_In, list_elem_of_filter. split; [|exact Hd].
      apply too_short_iff in Hlen. rewrite Hlen. exact I.
Qed.


(** X7.  Whatever [run] does, with the source directory there or not,
    the index afterwards is the index before followed by the chunks of
    the insertions that returned, in order, and the closing record tells
    the truth: it reports the number of chunks added when there are some
    and reports that there is nothing new when there are none.  It is
    missing in two cases only: the run raised, or the source directory
    does not exist, and then the run logs that as an error, adds nothing
    and returns. *)
Theorem run_index_accounting (cfg : Ingest.IngestionConfig)
        (env : Ingest.Backend) (scan : option (list Ingest.SourceFile))
        (st : Ingest.State) :
  exists r st' tr,
    Ingest.run cfg env scan st = (r, st')
    /\ Ingest.trace st' = Ingest.trace st ++ tr
    /\ Ingest.vectorstore st' = Ingest.vectorstore st ++ added tr
    /\ (summaries tr = []
        /\ ((exists e, r = Raise e)
            \/ (scan = None /\ r = Ok tt
                /\ tr = [Ingest.LogInfo Ingest.MsgStarting;
                         Ingest.LogError
                           (Ingest.MsgNoSourceDir (Ingest.source_dir cfg))]))
        \/ scan <> None
           /\ summaries tr = [Ingest.MsgComplete (len (added tr))]
           /\ added tr <> []
        \/ scan <> None
           /\ summaries tr = [Ingest.MsgNothingNew] /\ added tr = []).
Proof.
  destruct scan as [fs|].
  - destruct (run_trace cfg env fs st)
      as (r & st' & tr & reached & rest & E & T & V & S & _).
    exists r, st', tr. split; [exact E|]. split; [exact T|].
    split; [exact V|].
    destruct S as [[S1 S2]|[[S1 S2]|[S1 S2]]].
    + left. split; [exact S1 | left; exact S2].
    + right. left. split; [discriminate | split; assumption].
    + right. right. split; [discriminate | split; assumption].
  - eexists _, _, _. split; [reflexivity|]. cbn.
    split; [rewrite <- app_assoc; reflexivity|].
    split; [rewrite app_nil_r; reflexivity|].
    left. split; [reflexivity|]. right. repeat split.
Qed.

(** X8.  In the log of a run every write of the registry file comes
    directly after an insertion into the index that returned. *)
Theorem run_saves_follow_adds (cfg : Ingest.IngestionConfig)
        (env : Ingest.Backend) (fs : list Ingest.SourceFile)
        (st : Ingest.State) :
  exists r st' tr,
    Ingest.run cfg env (Some fs) st = (r, st')
    /\ Ingest.trace st' = Ingest.trace st ++ tr
    /\ saves_follow_adds false tr = true.
Proof.
  destruct (run_trace cfg env fs st)
    as (r & st' & tr & reached & rest & E & T & _ & _ & _ & _ & _ & F).
  exists r, st', tr. auto.
Qed.

(** X9.  A run goes through the files in the order of the scan and logs
    each file it reaches exactly once, as skipped or as processed; it
    reaches every file unless it raises. *)
Theorem run_visits_in_order (cfg : Ingest.IngestionConfig)
        (env : Ingest.Backend) (fs : list Ingest.SourceFile)
        (st : Ingest.State) :
  exists r st' tr reached rest,
    Ingest.run cfg env (Some fs) st = (r, st')
    /\ Ingest.trace st' = Ingest.trace st ++ tr
    /\ fs = reached ++ rest
    /\ visited tr = map Ingest.name reached
    /\ (rest = [] \/ exists e, r = Raise e).
Proof.
  destruct (run_trace cfg env fs st)
    as (r & st' & tr & reached & rest & E & T & _ & _ & Hfs & Vi & Hr & _).
  exists r, st', tr, reached, rest. auto.
Qed.

(** X10.  A run changes the registry only at the names of scanned files
    that yielded chunks, and what it leaves there is the fingerprint of
    such a file; every other entry stays, and no entry is removed. *)
Theorem run_registry_entries (cfg : Ingest.IngestionConfig)
        (env : Ingest.Backend) (fs : list Ingest.SourceFile)
        (st : Ingest.State) :
  exists r st',
    Ingest.run cfg env (Some fs) st = (r, st')
    /\ forall key,
         Ingest.registry st' !! key = Ingest.registry st !! key
         \/ exists f,
              f ∈ fs /\ key = Ingest.name f
              /\ (exists file_hash,
                    Ingest.calculate_file_hash f = Ok file_hash
                    /\ Ingest.registry st' !! key = Some file_hash)
              /\ Ingest.chunks cfg env f <> [].
Proof.
  destruct (run_shape cfg env fs st) as (r1 & st1 & Hloop & Hrun).
  pose proof (loop_events_registry cfg env _ _ _ _ _ Hloop) as Hreg.
  destruct r1 as [n|e].
  - destruct Hrun as (r & trv & Er & _).
    eexists _, _. split; [exact Er|]. exact Hreg.
  - eexists _, _. split; [exact Hrun|]. exact Hreg.
Qed.

(** X11.  A file the loop body has just ingested (it added chunks for it)
    is skipped by the next pass over it: the registry now holds its
    fingerprint, so the file is neither loaded nor inserted again,
    whatever loader, index or configuration is in place by then. *)
Theorem ingested_then_skipped (cfg cfg' : Ingest.IngestionConfig)
        (env env' : Ingest.Backend) (f : Ingest.SourceFile)
        (st st' : Ingest.State) (k : Z) :
  Ingest.ingest_file cfg env f st = (Ok k, st') ->
  k <> 0 ->
  Ingest.ingest_file cfg' env' f st'
  = (Ok 0, Ingest.log st' [Ingest.LogInfo
                             (Ingest.MsgSkipping (Ingest.name f))]).
Proof.
  intros E Hk. rewrite ingest_file_unfold in E. rewrite ingest_file_unfold.
  destruct (Ingest.calculate_file_hash f) as [h|e0]; [|discriminate].
  assert (Hcur : Ingest.registry st' !! Ingest.name f = Some h).
  { case_bool_decide as Hc.
    - injection E as <- _. contradiction.
    - cbn zeta in E.
      destruct (Ingest.process_result cfg env f) as [[|d docs]|e0];
        [| |discriminate].
      + injection E as <- _. contradiction.
      + destruct (Ingest.add_fault env _ _); [discriminate|].
        injection E as _ <-. cbn. apply lookup_insert_eq. }
  rewrite (bool_decide_eq_true_2 _ Hcur). reflexivity.
Qed.

Lemma ingested_then_skipped_witness :
  Ingest.ingest_file Examples.cfg0 Examples.env_ok Examples.road_a
                     Examples.empty_state
  = (Ok 1, MoreExamples.road_ingested)
  /\ 1 <> 0
  /\ Ingest.ingest_file Examples.cfg0 Examples.env_down Examples.road_a
                        MoreExamples.road_ingested
     = (Ok 0, Ingest.log MoreExamples.road_ingested
                [Ingest.LogInfo
                   (Ingest.MsgSkipping (Ingest.name Examples.road_a))]).
Proof.
  assert (H1 : Ingest.ingest_file Examples.cfg0 Examples.env_ok
                 Examples.road_a Examples.empty_state
               = (Ok 1, MoreExamples.road_ingested))
    by (vm_compute; reflexivity).
  assert (H2 : 1 <> 0) by discriminate.
  split; [exact H1|]. split; [exact H2|].
  exact (ingested_then_skipped Examples.cfg0 Examples.cfg0 Examples.env_ok
           Examples.env_down Examples.road_a Examples.empty_state
           MoreExamples.road_ingested 1 H1 H2).
Defined.

(** X12.  When the validation query at the end of [run] raises, [run]
    raises that exception although the loop over the files has returned;
    the registry and the index keep everything the loop has written. *)
Theorem validation_failure_after_commit (cfg : Ingest.IngestionConfig)
        (env : Ingest.Backend) (fs : list Ingest.SourceFile)
        (st st1 : Ingest.State) (n : Z) (e : exn) :
  Ingest.ingest_files cfg env fs 0
    (Ingest.log st (MoreExamples.opening cfg fs)) = (Ok n, st1) ->
  Ingest.similarity_search env (Ingest.vectorstore st1) Ingest.test_query 3
  = Raise e ->
  exists st',
    Ingest.run cfg env (Some fs) st = (Raise e, st')
    /\ Ingest.registry st' = Ingest.registry st1
    /\ Ingest.vectorstore st' = Ingest.vectorstore st1.
Proof.
  intros Hloop Hsearch. rewrite run_unfold.
  unfold MoreExamples.opening in Hloop. rewrite Hloop.
  match goal with |- context [Ingest.validate env ?s] =>
    destruct (validate_shape env s) as (r & trv & Ev & _ & Hr & _)
  end.
  rewrite Ev, (Hr e Hsearch). eexists. split; [reflexivity|].
  split; reflexivity.
Qed.

Lemma validation_failure_witness :
  Ingest.ingest_files Examples.cfg0 MoreExamples.env_blind [Examples.road_a] 0
    (Ingest.log Examples.empty_state
       (MoreExamples.opening Examples.cfg0 [Examples.road_a]))
  = (Ok 1, MoreExamples.road_loop_done)
  /\ Ingest.similarity_search MoreExamples.env_blind
       (Ingest.vectorstore MoreExamples.road_loop_done) Ingest.test_query 3
     = Raise MoreExamples.search_down
  /\ exists st',
       Ingest.run Examples.cfg0 MoreExamples.env_blind
                  (Some [Examples.road_a]) Examples.empty_state
       = (Raise MoreExamples.search_down, st')
       /\ Ingest.registry st' = Ingest.registry MoreExamples.road_loop_done
       /\ Ingest.vectorstore st'
          = Ingest.vectorstore MoreExamples.road_loop_done.
Proof.
  assert (H1 : Ingest.ingest_files Examples.cfg0 MoreExamples.env_blind
                 [Examples.road_a] 0
                 (Ingest.log Examples.empty_state
                    (MoreExamples.opening Examples.cfg0 [Examples.road_a]))
               = (Ok 1, MoreExamples.road_loop_done))
    by (vm_compute; reflexivity).
  assert (H2 : Ingest.similarity_search MoreExamples.env_blind
                 (Ingest.vectorstore MoreExamples.road_loop_done)
                 Ingest.test_query 3
               = Raise MoreExamples.search_down) by reflexivity.
  split; [exact H1|]. split; [exact H2|].
  exact (validation_failure_after_commit Examples.cfg0 MoreExamples.env_blind
           [Examples.road_a] Examples.empty_state
           MoreExamples.road_loop_done 1 MoreExamples.search_down H1 H2).
Defined.


(** X20.  A file that cannot be opened or read stops the run: when
    fingerprinting it raises, [run] raises that exception at once, with
    nothing logged about the file.  The registry, the index and the log
    are as the files before it in the scan left them, and no file behind
    it is reached. *)
Theorem unreadable_file_stops_run (cfg : Ingest.IngestionConfig)
        (env : Ingest.Backend) (pre post : list Ingest.SourceFile)
        (f : Ingest.SourceFile) (st st1 : Ingest.State) (n : Z) (e : exn) :
  Ingest.ingest_files cfg env pre 0
    (Ingest.log st (MoreExamples.opening cfg (pre ++ f :: post)))
  = (Ok n, st1) ->
  Ingest.calculate_file_hash f = Raise e ->
  Ingest.run cfg env (Some (pre ++ f :: post)) st = (Raise e, st1).
Proof.
  intros Hpre Hread. rewrite run_unfold, ingest_files_app.
  unfold MoreExamples.opening in Hpre. rewrite Hpre.
  cbn [Ingest.ingest_files]. unfold mbind, M_bind, bind.
  rewrite ingest_file_unfold, Hread. reflexivity.
Qed.

Lemma unreadable_file_witness :
  Ingest.ingest_files Examples.cfg0 Examples.env_ok [Examples.road_a] 0
    (Ingest.log Examples.empty_state
       (MoreExamples.opening Examples.cfg0
          ([Examples.road_a] ++ Examples.locked :: [Examples.trail_b])))
  = (Ok 1, MoreExamples.road_then_locked)
  /\ Ingest.calculate_file_hash Examples.locked
     = Raise Examples.not_permitted
  /\ Ingest.run Examples.cfg0 Examples.env_ok
       (Some ([Examples.road_a] ++ Examples.locked :: [Examples.trail_b]))
       Examples.empty_state
     = (Raise Examples.not_permitted, MoreExamples.road_then_locked)
  /\ visited (Ingest.trace MoreExamples.road_then_locked)
     = [Ingest.name Examples.road_a].
Proof.
  assert (H1 : Ingest.ingest_files Examples.cfg0 Examples.env_ok
                 [Examples.road_a] 0
                 (Ingest.log Examples.empty_state
                    (MoreExamples.opening Examples.cfg0
                       ([Examples.road_a] ++ Examples.locked
                        :: [Examples.trail_b])))
               = (Ok 1, MoreExamples.road_then_locked))
    by (vm_compute; reflexivity).
  assert (H2 : Ingest.calculate_file_hash Examples.locked
               = Raise Examples.not_permitted) by reflexivity.
  split; [exact H1|]. split; [exact H2|].
  split; [|vm_compute; reflexivity].
  exact (unreadable_file_stops_run Examples.cfg0 Examples.env_ok
           [Examples.road_a] [Examples.trail_b] Examples.locked
           Examples.empty_state MoreExamples.road_then_locked 1
           Examples.not_permitted H1 H2).
Defined.
(** ** Answering a question *)

Section AnswerProperties.

Import Retrieval.

Variable con : Console.

Ltac unfold_M :=
  unfold mbind, M_bind, bind, mret, M_ret, ret, raise, try_except, print,
    print_exc, emit, call, check, attr, get_globals, set_globals in *.

(** One step of the case analysis on what the console does. *)
Ltac console_step :=
  match goal with
  | |- context [stdout_fault con ?t ?s] =>
      let E := fresh "Eout" in
      destruct (stdout_fault con t s) eqn:E
  | |- context [stderr_fault con ?t ?e] =>
      let E := fresh "Eerr" in
      destruct (stderr_fault con t e) eqn:E
  end; cbn.

Ltac trace_eq :=
  cbn;
  first [ reflexivity
        | symmetry; apply app_nil_r
        | repeat (rewrite <- app_assoc || rewrite <- app_comm_cons);
          reflexivity ].

(** One leaf of the case analysis of the [try] block. *)
Ltac body_case :=
  eexists _, _, _; split; [reflexivity|]; split; [trace_eq|]; cbn;
  split; [reflexivity|];
  split; [first [left; reflexivity | right; reflexivity]|];
  split; [first [intros _; reflexivity | intros H; discriminate H]|];
  split; [lia|];
  split;
  [ first [ intros resp H; discriminate H
          | intros resp H; injection H as <-; cbn;
            split; [reflexivity|]; split; [discriminate|];
            solve [eauto] ]
  | first [ intros e' H; discriminate H
          | intros e' _ H; discriminate H
          | intros e' H _; injection H as <-;
            first [solve [left; left; eauto] | right; reflexivity] ] ].

Lemma searches_app (a b : list event) :
  searches (a ++ b) = searches a ++ searches b.
Proof.
  induction a as [|ev a IH]; [reflexivity|].
  destruct ev; cbn; rewrite IH; reflexivity.
Qed.

Lemma format_built_prompt (vars : list text) (context question : text) :
  format (mkPrompt template_text vars) context question
  = prompt_for context question.
Proof. vm_compute. reflexivity. Qed.

(** What initialisation on first use leaves behind, whatever the console
    does: it only prints, it never raises into [get_answer], and it lets
    the call go on only with the vector store set. *)
Lemma initialize_if_needed_trace (env : Env) (st : State) :
  exists early st' tr,
    initialize_if_needed con env st = (Ok early, st')
    /\ trace st' = trace st ++ tr
    /\ searches tr = [] /\ invocations tr = []
    /\ (vector_store (globals st) <> None -> st' = st /\ early = None)
    /\ match early with
       | None => vector_store (globals st') <> None
       | Some r =>
           source_documents r = []
           /\ exists e,
                result r
                = lit "System Error: Failed to initialize RAG pipeline. "
                  ++ exn_str e
       end.
Proof.
  unfold initialize_if_needed.
  destruct (vector_store (globals st)) as [vs|] eqn:Ev.
  - exists None, st, []. rewrite app_nil_r, Ev.
    repeat split; discriminate.
  - unfold initialize_rag. unfold_M. cbn.
    destruct (imports env) as [e1|];
      destruct (GOOGLE_API_KEY env) as [[|c key]|];
      destruct (HuggingFaceEmbeddings env) as [e2|];
      destruct (Chroma env) as [vs|e3];
      destruct (ChatGoogleGenerativeAI env) as [m|e4];
      cbn; repeat console_step;
      (eexists _, _, _; split; [reflexivity|]; split; [trace_eq|];
       cbn; split; [reflexivity|]; split; [reflexivity|];
       split; [intros H; contradiction|];
       first [ discriminate
             | split; [reflexivity|];
               first [ eexists; reflexivity
                     | exists no_api_key; reflexivity ] ]).
Qed.

(** The events of the [try] block, whatever the console does. *)
Lemma answer_body_trace (q : text) (st : State) :
  exists r st' tr,
    answer_body con q st = (r, st')
    /\ trace st' = trace st ++ tr
    /\ globals st' = globals st
    /\ (searches tr = [] \/ searches tr = [(q, 4%Z)])
    /\ (searches tr = [] -> invocations tr = [])
    /\ (length (invocations tr) <= 1)%nat
    /\ (forall resp, r = Ok resp ->
          searches tr = [(q, 4%Z)] /\ invocations tr <> []
          /\ exists vs,
               vector_store (globals st) = Some vs
               /\ vs_similarity_search vs q 4 = Ok (source_documents resp))
    /\ (forall e, r = Raise e -> searches tr = [] ->
          console_raises con e \/ vector_store (globals st) = None).
Proof.
  destruct st as [[ovs om op] tr0]. unfold answer_body. unfold_M. cbn.
  console_step; [body_case|].
  destruct ovs as [vs|]; cbn; [|body_case].
  destruct (vs_similarity_search vs q 4) as [docs|e] eqn:Es; cbn;
    [|body_case].
  console_step; [body_case|].
  destruct op as [p|]; cbn; [|body_case].
  destruct om as [m|]; cbn; [|body_case].
  destruct (invoke_content m _) as [t|e] eqn:Ei; cbn; body_case.
Qed.

(** One call of [get_answer], whatever the console, the environment and
    the globals are. *)
Lemma get_answer_shape (env : Env) (q : text) (st : State) :
  exists r st' tr,
    get_answer con env q st = (r, st')
    /\ trace st' = trace st ++ tr
    /\ (searches tr = [] \/ searches tr = [(q, 4%Z)])
    /\ (searches tr = [] -> invocations tr = [])
    /\ (length (invocations tr) <= 1)%nat
    /\ (forall resp, r = Ok resp -> source_documents resp <> [] ->
          searches tr = [(q, 4%Z)] /\ invocations tr <> []
          /\ exists vs,
               vector_store (globals st') = Some vs
               /\ vs_similarity_search vs q 4 = Ok (source_documents resp))
    /\ (forall e, r = Raise e -> console_raises con e)
    /\ (vector_store (globals st) <> None -> globals st' = globals st).
Proof.
  destruct (initialize_if_needed_trace env st)
    as (early & st1 & tr1 & Ei & Ht1 & Hs1 & Hi1 & Hset & He).
  unfold get_answer. unfold mbind, M_bind, bind. rewrite Ei.
  destruct early as [r0|].
  - exists (Ok r0), st1, tr1. split; [reflexivity|]. split; [exact Ht1|].
    split; [left; exact Hs1|]. split; [intros _; exact Hi1|].
    split; [rewrite Hi1; cbn; lia|].
    destruct He as (Hd & _).
    split; [intros resp [= <-] Hne; contradiction|].
    split; [discriminate|].
    intros Hv. destruct (Hset Hv) as [_ [=]].
  - assert (Hg1 : vector_store (globals st) <> None ->
                  globals st1 = globals st).
    { intros Hv. destruct (Hset Hv) as [-> _]. reflexivity. }
    unfold print at 1.
    destruct (stdout_fault con (trace st1) (lit "Question: " ++ q))
      as [e|] eqn:Eq.
    { exists (Raise e), st1, tr1. split; [reflexivity|]. split; [exact Ht1|].
      split; [left; exact Hs1|]. split; [intros _; exact Hi1|].
      split; [rewrite Hi1; cbn; lia|].
      split; [discriminate|].
      split; [intros e' [= <-]; left; eauto | exact Hg1]. }
    unfold emit at 1. cbn. unfold try_except.
    destruct (answer_body_trace q
                (mkState (globals st1)
                   (trace st1 ++ [Print (lit "Question: " ++ q)])))
      as (rb & st3 & tr3 & Eb & Ht3 & Hg3 & Hs3 & Hn3 & Hl3 & Hok3 & Hr3).
    rewrite Eb. cbn in Ht3, Hg3, Hok3, Hr3.
    assert (Hsearch : forall tail,
              searches tail = [] ->
              searches (tr1 ++ [Print (lit "Question: " ++ q)] ++ tr3 ++ tail)
              = searches tr3).
    { intros tail Htl. rewrite !searches_app, Hs1, Htl. cbn.
      rewrite app_nil_r. reflexivity. }
    assert (Hinv : forall tail,
              invocations tail = [] ->
              invocations
                (tr1 ++ [Print (lit "Question: " ++ q)] ++ tr3 ++ tail)
              = invocations tr3).
    { intros tail Htl. rewrite !invocations_app, Hi1, Htl. cbn.
      rewrite app_nil_r. reflexivity. }
    assert (Htrace : forall tail,
              trace st3 ++ tail
              = trace st ++ tr1 ++ [Print (lit "Question: " ++ q)]
                  ++ tr3 ++ tail).
    { intros tail. rewrite Ht3, Ht1, <- !app_assoc. reflexivity. }
    destruct rb as [resp|e].
    + exists (Ok resp), st3,
        (tr1 ++ [Print (lit "Question: " ++ q)] ++ tr3 ++ []).
      split; [reflexivity|].
      split; [rewrite <- Htrace, app_nil_r; reflexivity|].
      rewrite (Hsearch [] eq_refl), (Hinv [] eq_refl).
      split; [exact Hs3|]. split; [exact Hn3|]. split; [exact Hl3|].
      split.
      { intros resp' [= <-] _. destruct (Hok3 resp eq_refl) as (A & B & C).
        split; [exact A|]. split; [exact B|]. rewrite Hg3. exact C. }
      split; [discriminate|].
      intros Hv. rewrite Hg3. exact (Hg1 Hv).
    + unfold mbind, M_bind, bind. unfold print at 1.
      destruct (stdout_fault con (trace st3)
                  (lit "Error running chain: " ++ exn_str e))
        as [e1|] eqn:E1.
      { exists (Raise e1), st3,
          (tr1 ++ [Print (lit "Question: " ++ q)] ++ tr3 ++ []).
        split; [reflexivity|].
        split; [rewrite <- Htrace, app_nil_r; reflexivity|].
        rewrite (Hsearch [] eq_refl), (Hinv [] eq_refl).
        split; [exact Hs3|]. split; [exact Hn3|]. split; [exact Hl3|].
        split; [discriminate|].
        split; [intros e' [= <-]; left; eauto|].
        intros Hv. rewrite Hg3. exact (Hg1 Hv). }
      unfold emit at 1. cbn. unfold print_exc at 1. cbn.
      destruct (stderr_fault con _ e) as [e2|] eqn:E2.
      { eexists (Raise e2), _,
          (tr1 ++ [Print (lit "Question: " ++ q)] ++ tr3
           ++ [Print (lit "Error running chain: " ++ exn_str e)]).
        split; [reflexivity|].
        split; [cbn; apply Htrace|].
        rewrite (Hsearch [Print _] eq_refl), (Hinv [Print _] eq_refl).
        split; [exact Hs3|]. split; [exact Hn3|]. split; [exact Hl3|].
        split; [discriminate|].
        split; [intros e' [= <-]; right; eauto|].
        intros Hv. cbn. rewrite Hg3. exact (Hg1 Hv). }
      eexists (Ok _), _,
        (tr1 ++ [Print (lit "Question: " ++ q)] ++ tr3
         ++ [Print (lit "Error running chain: " ++ exn_str e);
             PrintTraceback e]).
      split; [reflexivity|].
      split; [cbn; rewrite <- app_assoc; apply Htrace|].
      rewrite (Hsearch [Print _; PrintTraceback e] eq_refl),
              (Hinv [Print _; PrintTraceback e] eq_refl).
      split; [exact Hs3|]. split; [exact Hn3|]. split; [exact Hl3|].
      split; [intros resp [= <-] Hne; contradiction|].
      split; [discriminate|].
      intros Hv. cbn. rewrite Hg3. exact (Hg1 Hv).
Qed.

End AnswerProperties.

(** X13.  [PROMPT.format] puts the context and the question into the
    template as they are, once each, whatever characters they hold
    (braces included): the prompt is the fixed instructions, the context,
    a blank line, "Question: " and the question, a blank line and
    "Answer:". *)
Theorem prompt_holds_context_and_question (context question : text) :
  Retrieval.format built_prompt context question
  = prompt_for context question.
Proof. apply format_built_prompt. Qed.

(** X14.  Whatever the console, the environment and the globals are, one
    call of [get_answer] keeps the events already recorded, searches the
    vector store at most once (with the question as it was asked and
    k = 4) and invokes the generation backend at most once, and only
    after the search; a response that carries source documents comes from
    a call that both searched and invoked.  When the call raises, the
    exception is one that a write to the console raised: no other
    exception leaves [get_answer]. *)
Theorem get_answer_effects (con : Retrieval.Console) (env : Retrieval.Env)
        (q : text) (st : Retrieval.State) :
  exists r st' tr,
    Retrieval.get_answer con env q st = (r, st')
    /\ Retrieval.trace st' = Retrieval.trace st ++ tr
    /\ (searches tr = [] \/ searches tr = [(q, 4%Z)])
    /\ (length (Retrieval.invocations tr) <= 1)%nat
    /\ (searches tr = [] -> Retrieval.invocations tr = [])
    /\ (forall resp, r = Ok resp ->
          Retrieval.source_documents resp <> [] ->
          searches tr = [(q, 4%Z)] /\ Retrieval.invocations tr <> [])
    /\ (forall e, r = Raise e -> console_raises con e).
Proof.
  destruct (get_answer_shape con env q st)
    as (r & st' & tr & E & T & S & N & L & D & R & _).
  exists r, st', tr. split; [exact E|]. split; [exact T|].
  split; [exact S|]. split; [exact L|]. split; [exact N|].
  split; [|exact R].
  intros resp Hr Hne. destruct (D resp Hr Hne) as (A & B & _). auto.
Qed.

Section Initialisation.

Import Retrieval.

Variable con : Console.
Variable env : Env.
Variable st : State.
Variable key : text.
Variable vs : VectorStore.

Hypothesis Hcon : console_ok con.
Hypothesis Hunset : vector_store (globals st) = None.
Hypothesis Himports : imports env = None.
Hypothesis Hkey : GOOGLE_API_KEY env = Some key.
Hypothesis Hnonempty : key <> [].
Hypothesis Hembed : HuggingFaceEmbeddings env = None.
Hypothesis Hchroma : Chroma env = Ok vs.

Ltac unfold_M :=
  unfold mbind, M_bind, bind, mret, M_ret, ret, raise, try_except, print,
    print_exc, emit, call, check, attr, get_globals, set_globals in *.

Ltac quiet :=
  cbn;
  repeat (match goal with
          | |- context [stdout_fault con ?t ?s] => rewrite (proj1 Hcon t s)
          | |- context [stderr_fault con ?t ?e] => rewrite (proj2 Hcon t e)
          end; cbn).

(** Initialisation with every constructor working. *)
Lemma initialize_if_needed_healthy (m : ChatModel) :
  ChatGoogleGenerativeAI env = Ok m ->
  initialize_if_needed con env st =
  (Ok None,
   mkState (mkGlobals (Some vs) (Some m) (Some built_prompt))
     (trace st
      ++ [Print (lit "Initializing RAG pipeline (Manual Mode)...");
          Print (lit "Loading embeddings...");
          Print (lit "Loading Vector DB...");
          Print (lit "Loading LLM...");
          Print (lit "RAG pipeline initialized successfully.")])).
Proof.
  intros Hllm. unfold initialize_if_needed. rewrite Hunset.
  unfold initialize_rag. unfold_M. quiet.
  rewrite Himports, Hkey. destruct key as [|c k]; [contradiction|]. quiet.
  rewrite Hembed. quiet. rewrite Hchroma. quiet. rewrite Hllm. quiet.
  rewrite <- !app_assoc. reflexivity.
Qed.

(** Initialisation when only the constructor of the LLM client fails. *)
Lemma initialize_if_needed_no_llm (e : exn) :
  ChatGoogleGenerativeAI env = Raise e ->
  initialize_if_needed con env st =
  (Ok (Some (mkResponse
               (lit "System Error: Failed to initialize RAG pipeline. "
                ++ exn_str e) [])),
   mkState (mkGlobals (Some vs) (llm (globals st)) (PROMPT (globals st)))
     (trace st
      ++ [Print (lit "Initializing RAG pipeline (Manual Mode)...");
          Print (lit "Loading embeddings...");
          Print (lit "Loading Vector DB...");
          Print (lit "Loading LLM...");
          Print (lit "Failed to initialize RAG: " ++ exn_str e)])).
Proof.
  intros Hllm. unfold initialize_if_needed. rewrite Hunset.
  unfold initialize_rag. unfold_M. quiet.
  rewrite Himports, Hkey. destruct key as [|c k]; [contradiction|]. quiet.
  rewrite Hembed. quiet. rewrite Hchroma. quiet. rewrite Hllm. quiet.
  rewrite <- !app_assoc. reflexivity.
Qed.

End Initialisation.

(** X15.  The first call in a working environment (a console that takes
    every write, imports fine, a non-empty API key, the three
    constructors working) initialises the three globals and answers in
    the same call: when the search returns documents and the backend
    answers the prompt built from them, the response is that answer with
    those documents, the vector store was searched once with the question
    and k = 4, and the backend was invoked once, on the prompt that holds
    the contents of the documents joined by blank lines. *)
Theorem first_call_initialises_and_answers
        (con : Retrieval.Console) (env : Retrieval.Env) (q : text)
        (st : Retrieval.State) (key : text) (vs : Retrieval.VectorStore)
        (m : Retrieval.ChatModel) (docs : list Document) (t : text) :
  Retrieval.console_ok con ->
  Retrieval.vector_store (Retrieval.globals st) = None ->
  Retrieval.imports env = None ->
  Retrieval.GOOGLE_API_KEY env = Some key ->
  key <> [] ->
  Retrieval.HuggingFaceEmbeddings env = None ->
  Retrieval.Chroma env = Ok vs ->
  Retrieval.ChatGoogleGenerativeAI env = Ok m ->
  Retrieval.vs_similarity_search vs q 4 = Ok docs ->
  Retrieval.invoke_content m
    (prompt_for (join [NL; NL] (map page_content docs)) q) = Ok t ->
  exists st' tr,
    Retrieval.get_answer con env q st
    = (Ok (Retrieval.mkResponse t docs), st')
    /\ Retrieval.globals st'
       = Retrieval.mkGlobals (Some vs) (Some m) (Some built_prompt)
    /\ Retrieval.trace st' = Retrieval.trace st ++ tr
    /\ searches tr = [(q, 4%Z)]
    /\ Retrieval.invocations tr
       = [prompt_for (join [NL; NL] (map page_content docs)) q].
Proof.
  intros Hcon Hunset Himp Hkey Hne Hemb Hchroma Hllm Hsearch Hinvoke.
  pose proof (initialize_if_needed_healthy con env st key vs Hcon Hunset
                Himp Hkey Hne Hemb Hchroma m Hllm) as Ei.
  rewrite (get_answer_unfold con env Hcon q st _ Ei). cbv zeta.
  erewrite (answer_body_ready con Hcon q _ vs m built_prompt)
    by reflexivity.
  cbv zeta. rewrite Hsearch. unfold built_prompt at 1 2.
  rewrite format_built_prompt, Hinvoke.
  eexists _, _. split; [reflexivity|].
  split; [reflexivity|]. cbn [Retrieval.trace Retrieval.globals].
  split; [rewrite <- !app_assoc; reflexivity|].
  split; reflexivity.
Qed.

(** X16.  Initialisation is attempted only while the [vector_store]
    global is unset.  Once it is set, a call never looks at the
    environment again (API key, constructors) and never changes the three
    globals: the same call gives the same outcome in any environment. *)
Theorem initialised_once (con : Retrieval.Console)
        (env env' : Retrieval.Env) (q : text)
        (st : Retrieval.State) (vs : Retrieval.VectorStore) :
  Retrieval.vector_store (Retrieval.globals st) = Some vs ->
  Retrieval.get_answer con env q st = Retrieval.get_answer con env' q st
  /\ Retrieval.globals (snd (Retrieval.get_answer con env q st))
     = Retrieval.globals st.
Proof.
  intros Hset. split.
  - unfold Retrieval.get_answer, Retrieval.initialize_if_needed.
    unfold mbind, M_bind, bind. rewrite Hset. reflexivity.
  - destruct (get_answer_shape con env q st)
      as (r & st' & tr & E & _ & _ & _ & _ & _ & _ & G).
    rewrite E. cbn. apply G. rewrite Hset. discriminate.
Qed.

(** X17.  When initialisation gets as far as the vector store and the
    constructor of the LLM client then raises, the call returns the
    "System Error" message of that exception and leaves [vector_store] set
    with [llm] and [PROMPT] still [None].  From then on no call
    initialises again, in whatever environment: every later call searches
    the vector store, never invokes the generation backend, returns no
    source document and leaves the globals as they are; when the search
    returns, the result is the message of the [AttributeError] on
    [PROMPT.format].  (The console takes every write throughout.) *)
Theorem failed_llm_setup_is_permanent
        (con : Retrieval.Console) (env : Retrieval.Env) (q : text)
        (st : Retrieval.State) (key : text) (vs : Retrieval.VectorStore)
        (e : exn) :
  Retrieval.console_ok con ->
  Retrieval.globals st = Retrieval.mkGlobals None None None ->
  Retrieval.imports env = None ->
  Retrieval.GOOGLE_API_KEY env = Some key ->
  key <> [] ->
  Retrieval.HuggingFaceEmbeddings env = None ->
  Retrieval.Chroma env = Ok vs ->
  Retrieval.ChatGoogleGenerativeAI env = Raise e ->
  exists st1,
    Retrieval.get_answer con env q st
    = (Ok (Retrieval.mkResponse
             (lit "System Error: Failed to initialize RAG pipeline. "
              ++ exn_str e) []), st1)
    /\ Retrieval.globals st1 = Retrieval.mkGlobals (Some vs) None None
    /\ forall (env' : Retrieval.Env) (q' : text) (st1' : Retrieval.State),
         Retrieval.globals st1' = Retrieval.globals st1 ->
         exists r st2 tr,
           Retrieval.get_answer con env' q' st1' = (Ok r, st2)
           /\ Retrieval.globals st2 = Retrieval.globals st1
           /\ Retrieval.trace st2 = Retrieval.trace st1' ++ tr
           /\ searches tr = [(q', 4%Z)]
           /\ Retrieval.invocations tr = []
           /\ Retrieval.source_documents r = []
           /\ (forall docs,
                 Retrieval.vs_similarity_search vs q' 4 = Ok docs ->
                 Retrieval.result r
                 = lit "Error: " ++ none_has_no "format").
Proof.
  intros Hcon Hg Himp Hkey Hne Hemb Hchroma Hllm.
  assert (Hunset : Retrieval.vector_store (Retrieval.globals st) = None)
    by (rewrite Hg; reflexivity).
  pose proof (initialize_if_needed_no_llm con env st key vs Hcon Hunset
                Himp Hkey Hne Hemb Hchroma e Hllm) as Ei.
  eexists. split.
  { unfold Retrieval.get_answer. unfold mbind, M_bind, bind.
    rewrite Ei. reflexivity. }
  cbn [Retrieval.globals]. rewrite Hg. cbn [Retrieval.llm Retrieval.PROMPT].
  split; [reflexivity|].
  intros env' q' st1' Hg1.
  assert (Ei' : Retrieval.initialize_if_needed con env' st1'
                = (Ok None, st1')).
  { unfold Retrieval.initialize_if_needed. rewrite Hg1. reflexivity. }
  rewrite (get_answer_unfold con env' Hcon q' st1' st1' Ei'). cbv zeta.
  unfold Retrieval.answer_body.
  unfold mbind, M_bind, bind, mret, M_ret, ret, raise,
    try_except, Retrieval.print, Retrieval.emit, Retrieval.call,
    Retrieval.check, Retrieval.attr, Retrieval.get_globals.
  cbn. rewrite (proj1 Hcon). cbn. rewrite Hg1. cbn.
  destruct (Retrieval.vs_similarity_search vs q' 4) as [docs|e'] eqn:Es; cbn.
  - rewrite (proj1 Hcon). cbn.
    eexists _, _, _. split; [reflexivity|]. cbn.
    split; [reflexivity|]. rewrite <- !app_assoc.
    split; [reflexivity|]. cbn. repeat split.
  - eexists _, _, _. split; [reflexivity|]. cbn.
    split; [reflexivity|]. rewrite <- !app_assoc.
    split; [reflexivity|]. cbn. repeat split. discriminate.
Qed.

(** ** The chat handler *)

Section ChatHandler.

Import Retrieval Server.

Lemma serialize_ok (docs : list Document) (acc : list SourceEntry) :
  forallb source_is_text docs = true ->
  serialize docs acc = inr (acc ++ map entry_of docs).
Proof.
  revert acc. induction docs as [|doc rest IH]; intros acc Hall; cbn.
  - rewrite app_nil_r. reflexivity.
  - cbn in Hall. apply andb_prop in Hall as [Hd Hrest].
    unfold source_entry. unfold source_is_text in Hd.
    unfold entry_of at 1.
    destruct (metadata doc !! lit "source") as [[s|n|x|b|]|]; cbn;
      try discriminate;
      rewrite (IH _ Hrest), <- app_assoc; reflexivity.
Qed.

(** When the serialisation raises, it is on a document whose [source] is
    there and is not a string, with the message for the type of that
    value. *)
Lemma serialize_fails (docs : list Document) (acc : list SourceEntry)
      (detail : text) :
  serialize docs acc = inl detail ->
  exists doc v,
    In doc docs /\ metadata doc !! lit "source" = Some v
    /\ source_is_text doc = false
    /\ detail = basename_type_error v.
Proof.
  revert acc. induction docs as [|doc rest IH]; intros acc; cbn.
  - discriminate.
  - unfold source_entry at 1.
    destruct (metadata doc !! lit "source") as [v|] eqn:Em; cbn.
    + destruct v as [s|n|x|b|]; cbn;
        try (intros [= <-]; eexists doc, _;
             split; [left; reflexivity|]; split; [exact Em|];
             split; [unfold source_is_text; rewrite Em; reflexivity
                    | reflexivity]).
      intros H. destruct (IH _ H) as (d & v & Hin & Hm & Hs & Hd).
      exists d, v. split; [right; exact Hin | auto].
    + intros H. destruct (IH _ H) as (d & v & Hin & Hm & Hs & Hd).
      exists d, v. split; [right; exact Hin | auto].
Qed.

Lemma entry_of_source (doc : Document) :
  47%N ∉ source (entry_of doc).
Proof.
  unfold entry_of. cbn. apply basename_from_no_slash, not_elem_of_nil.
Qed.

End ChatHandler.

(** X18.  The chat handler answers with status 500 in two cases only.
    Either a write to the console raised inside [get_answer], which then
    raised itself: the detail is the message of that exception.  Or the
    search returned a document whose [source] metadata is there and is not
    a string, so that [os.path.basename] raised while the sources were
    serialised: the detail is the message of that [TypeError], which names
    the type of the value.  Every failure of the pipeline itself
    (initialisation, search, generation) gives an ordinary response. *)
Theorem chat_errors (con : Retrieval.Console) (env : Retrieval.Env)
        (q : text) (st : Retrieval.State) :
  exists st',
    (exists body, Server.chat con env q st = (Server.Returned body, st'))
    \/ (exists e,
          Server.chat con env q st
          = (Server.HTTPException 500 (exn_str e), st')
          /\ Retrieval.get_answer con env q st = (Raise e, st')
          /\ console_raises con e)
    \/ (exists vs docs doc v,
          Server.chat con env q st
          = (Server.HTTPException 500 (Server.basename_type_error v), st')
          /\ Retrieval.vector_store (Retrieval.globals st') = Some vs
          /\ Retrieval.vs_similarity_search vs q 4 = Ok docs
          /\ In doc docs
          /\ metadata doc !! lit "source" = Some v
          /\ Server.source_is_text doc = false).
Proof.
  destruct (get_answer_shape con env q st)
    as (r & st' & tr & E & _ & _ & _ & _ & D & R & _).
  exists st'. unfold Server.chat. rewrite E. destruct r as [resp|e].
  - destruct (Server.serialize (Retrieval.source_documents resp) [])
      as [detail|sources] eqn:Es; [|left; eauto].
    right. right.
    destruct (serialize_fails _ _ _ Es) as (doc & v & Hin & Hm & Hs & ->).
    assert (Hne : Retrieval.source_documents resp <> []).
    { intros Hnil. rewrite Hnil in Hin. destruct Hin. }
    destruct (D resp eq_refl Hne) as (_ & _ & vs & Hv & Hd).
    exists vs, (Retrieval.source_documents resp), doc, v. auto 10.
  - right. left. exists e. split; [reflexivity|]. split; [reflexivity|].
    apply R. reflexivity.
Qed.

(** X19.  When [get_answer] returns documents whose [source] metadata is
    a string or missing (none at all included, as on every error path),
    the chat handler returns the result text as [answer] and one source
    entry per document, in the order retrieved: the content as it is, the
    final path component of [source] (empty when missing; it never holds a
    slash), and the [page] value, or "Unknown" when missing. *)
Theorem chat_sources (con : Retrieval.Console) (env : Retrieval.Env)
        (q : text) (st st' : Retrieval.State) (r : Retrieval.Response) :
  Retrieval.get_answer con env q st = (Ok r, st') ->
  forallb Server.source_is_text (Retrieval.source_documents r) = true ->
  Server.chat con env q st
  = (Server.Returned
       (Server.mkChat (Retrieval.result r)
          (map Server.entry_of (Retrieval.source_documents r))), st')
  /\ Forall (fun entry => 47%N ∉ Server.source entry)
       (map Server.entry_of (Retrieval.source_documents r)).
Proof.
  intros E Hall. split.
  - unfold Server.chat. rewrite E, (serialize_ok _ [] Hall). reflexivity.
  - apply Forall_forall. intros entry Hin.
    apply list_elem_of_In, in_map_iff in Hin as (doc & <- & _).
    apply entry_of_source.
Qed.

Section ConcreteChat.

Import Retrieval Server Examples AnswerExamples.

Lemma first_call_witness :
  exists st' tr,
    get_answer quiet (renv full_index eager_model) question fresh
    = (Ok (mkResponse (lit "Use 10W-40 oil.") [one_doc]), st')
    /\ globals st'
       = mkGlobals (Some full_index) (Some eager_model) (Some built_prompt)
    /\ trace st' = trace fresh ++ tr
    /\ searches tr = [(question, 4%Z)]
    /\ invocations tr
       = [prompt_for (join [NL; NL] (map page_content [one_doc])) question].
Proof.
  apply (first_call_initialises_and_answers quiet
           (renv full_index eager_model)
           question fresh (lit "key") full_index eager_model [one_doc]
           (lit "Use 10W-40 oil.") quiet_ok);
    try reflexivity.
  vm_compute. discriminate.
Defined.

Lemma initialised_once_witness :
  get_answer ascii_console env_no_llm question
             (ready full_index eager_model)
  = get_answer ascii_console (renv empty_index failing_model) question
      (ready full_index eager_model)
  /\ globals (snd (get_answer ascii_console env_no_llm question
                     (ready full_index eager_model)))
     = globals (ready full_index eager_model).
Proof.
  apply (initialised_once ascii_console env_no_llm
           (renv empty_index failing_model)
           question (ready full_index eager_model) full_index).
  reflexivity.
Defined.

Lemma failed_llm_setup_witness :
  exists st1,
    get_answer quiet env_no_llm question fresh
    = (Ok (mkResponse
             (lit "System Error: Failed to initialize RAG pipeline. "
              ++ exn_str llm_down) []), st1)
    /\ globals st1 = mkGlobals (Some full_index) None None
    /\ forall (env' : Env) (q' : text) (st1' : State),
         globals st1' = globals st1 ->
         exists r st2 tr,
           get_answer quiet env' q' st1' = (Ok r, st2)
           /\ globals st2 = globals st1
           /\ trace st2 = trace st1' ++ tr
           /\ searches tr = [(q', 4%Z)]
           /\ invocations tr = []
           /\ source_documents r = []
           /\ (forall docs,
                 vs_similarity_search full_index q' 4 = Ok docs ->
                 result r = lit "Error: " ++ none_has_no "format").
Proof.
  apply (failed_llm_setup_is_permanent quiet env_no_llm question fresh
           (lit "key") full_index llm_down quiet_ok);
    try reflexivity.
  vm_compute. discriminate.
Defined.

Lemma chat_sources_witness :
  get_answer quiet (renv stored_index eager_model) question fresh
  = (Ok (mkResponse (lit "Use 10W-40 oil.") [stored_doc]),
     snd (get_answer quiet (renv stored_index eager_model) question fresh))
  /\ forallb source_is_text [stored_doc] = true
  /\ chat quiet (renv stored_index eager_model) question fresh
     = (Returned
          (mkChat (lit "Use 10W-40 oil.")
             [mkSource (lit "Check the oil level with the dipstick.")
                (lit "Manual.pdf") (MInt 3)]),
        snd (get_answer quiet (renv stored_index eager_model) question
               fresh)).
Proof.
  assert (E : get_answer quiet (renv stored_index eager_model) question
                fresh
              = (Ok (mkResponse (lit "Use 10W-40 oil.") [stored_doc]),
                 snd (get_answer quiet (renv stored_index eager_model)
                        question fresh))) by (vm_compute; reflexivity).
  split; [exact E|]. split; [vm_compute; reflexivity|].
  destruct (chat_sources quiet (renv stored_index eager_model) question
              fresh _ _ E eq_refl) as [Hc _].
  rewrite Hc. vm_compute. reflexivity.
Defined.

End ConcreteChat.
